(** * salesforce-to-types: the type generator of [src/libs/generator.ts]

    A shallow embedding of the [Generator] class and the properties of its
    output.  Strings are Rocq strings read as sequences of UTF-16 code units
    below 256 (one [ascii] per code unit); Salesforce API names are ASCII, so
    nothing the generator handles falls outside that range. *)

From Stdlib Require Import String Ascii List Bool Arith ZArith Lia.
From Stdlib Require Import Permutation Sorted.
Import ListNotations.
Open Scope string_scope.

(** ** The JavaScript primitives the generator relies on *)

Module JS.

(** The line feed written [\n] in the source. *)
Definition nl : string := String (ascii_of_nat 10) EmptyString.

(** [ToBoolean] on a string: only the empty string is falsy. *)
Definition truthy (s : string) : bool := negb (String.eqb s "").

(** [ToBoolean] on a value that is a string, [null] or [undefined]. *)
Definition truthy_opt (o : option string) : bool :=
  match o with
  | Some s => truthy s
  | None => false
  end.

(** A template literal prints a missing value as the word [null]. *)
Definition template (o : option string) : string :=
  match o with
  | Some s => s
  | None => "null"
  end.

(** [Array.prototype.find] with the callback [f => f === x]. *)
Definition find (x : string) (l : list string) : option string :=
  List.find (fun f => String.eqb f x) l.

(** [Array.prototype.findIndex] with the callback [f => f === x]:
    the first index that matches, [-1] when none does. *)
Fixpoint findIndex (x : string) (l : list string) : Z :=
  match l with
  | [] => (-1)%Z
  | f :: l' =>
      if String.eqb f x then 0%Z
      else let i := findIndex x l' in
           if (i <? 0)%Z then (-1)%Z else (i + 1)%Z
  end.

(** [Array.prototype.splice(start, 1)] for [0 <= start]: the array without
    its element at [start] (unchanged when [start] is past the end). *)
Definition splice1 (start : Z) (l : list string) : list string :=
  firstn (Z.to_nat start) l ++ skipn (S (Z.to_nat start)) l.

(** [Set.prototype.add]: a [Set] keeps its members in insertion order and
    ignores a value it already holds. *)
Definition set_add (x : string) (s : list string) : list string :=
  if existsb (String.eqb x) s then s else s ++ [x].

(** [Array.prototype.sort()] without a comparator orders strings by their
    code units.  The members sorted here are pairwise distinct, so every
    correct sorting algorithm returns the same array; insertion is used. *)
Fixpoint insert (x : string) (l : list string) : list string :=
  match l with
  | [] => [x]
  | y :: l' => if String.leb x y then x :: l else y :: insert x l'
  end.

Definition sort (l : list string) : list string :=
  fold_right insert [] l.

(** [String.prototype.replace(pat, '')] with a string pattern: only the
    first occurrence of [pat] is removed. *)
Fixpoint dropn (n : nat) (s : string) : string :=
  match n, s with
  | O, _ => s
  | S n', String _ s' => dropn n' s'
  | S _, EmptyString => EmptyString
  end.

Fixpoint replace_first (pat s : string) : string :=
  if String.prefix pat s then dropn (String.length pat) s
  else match s with
       | EmptyString => EmptyString
       | String c s' => String c (replace_first pat s')
       end.

(** [String.prototype.toLowerCase] on code units below 256: the letters
    A-Z and the Latin-1 capitals (all of 192..222 but the sign at 215)
    move up by 32. *)
Definition lower_char (c : ascii) : ascii :=
  let n := nat_of_ascii c in
  if ((65 <=? n) && (n <=? 90)
      || (192 <=? n) && (n <=? 222) && negb (n =? 215))%nat
  then ascii_of_nat (n + 32) else c.

Fixpoint toLowerCase (s : string) : string :=
  match s with
  | EmptyString => EmptyString
  | String c s' => String (lower_char c) (toLowerCase s')
  end.

(** A promise of a string.  Converting the promise object itself to a
    string (as [+=] on a string does) never looks at its state. *)
Inductive Promise : Type :=
  | Pending
  | Fulfilled (value : string)
  | Rejected.

Definition toString (p : Promise) : string := "[object Promise]".

End JS.

(** ** The describe result of the schema source *)

Module Field.
Record t : Type := mk
  { name : string;
    type : string;
    calculated : bool;
    referenceTo : list string;
    relationshipName : option string }.
End Field.

Module ChildRelationship.
Record t : Type := mk
  { childSObject : string;
    relationshipName : option string;
    junctionReferenceTo : list string }.
End ChildRelationship.

Record DescribeSObjectResult : Type := mkDescribe
  { fields : list Field.t;
    childRelationships : list ChildRelationship.t }.

Record IConfig : Type := mkConfig
  { sobjects : list string;
    specialChildrenToMap : option (list string) }.

Record OutputFlags : Type := mkFlags
  { sobject : option string;
    config : option string;
    outputdir : string }.

(** ** The fixed texts *)

Definition header : string :=
  JS.nl ++ "/**" ++ JS.nl
  ++ " * DO NOT MODIFY THIS FILE!" ++ JS.nl
  ++ " *" ++ JS.nl
  ++ " * This file is generated by the salesforce-to-types plugin and" ++ JS.nl
  ++ " * may be regenerated in the future. It is recommended to make" ++ JS.nl
  ++ " * changes to that plugin then regenerate these files." ++ JS.nl
  ++ " *" ++ JS.nl
  ++ " */" ++ JS.nl.

Definition sobject_text : string :=
  header ++ JS.nl ++ "import { ID, Attribute } from './sobjectFieldTypes';" ++ JS.nl
  ++ JS.nl
  ++ "export type SObjectAttribute<TString> = SObject & Attribute<TString>;" ++ JS.nl
  ++ "export interface SObject {" ++ JS.nl
  ++ "  Id: ID;" ++ JS.nl
  ++ "}" ++ JS.nl.

Definition sobjectFieldTypes : string :=
  header ++ JS.nl
  ++ "export type ID = string;" ++ JS.nl
  ++ "export type DateString = string;" ++ JS.nl
  ++ "export type PhoneString = string;" ++ JS.nl
  ++ "export type Attribute<TString> = { attributes: { type: TString } }" ++ JS.nl
  ++ "export type ChildRecords<T, TString> = { records: Array<Partial<T> & Attribute<TString>> };" ++ JS.nl.

Definition generateFileHeader : string :=
  JS.nl ++ "      " ++ header ++ JS.nl ++ JS.nl
  ++ "      import { SObjectAttribute } from './sobject';" ++ JS.nl ++ JS.nl
  ++ "      import { ID, ChildRecords, DateString, PhoneString } from './sobjectFieldTypes';" ++ JS.nl
  ++ "    ".

(** ** The entity type block: [generateSObjectTypeContents] *)

(** The [switch] on the field's type tag (lines 79-105). *)
Definition typeName (ty : string) : string :=
  if String.eqb ty "boolean" then "boolean"
  else if String.eqb ty "int" then "number"
  else if String.eqb ty "double" then "number"
  else if String.eqb ty "currency" then "number"
  else if String.eqb ty "date" then "DateString | null"
  else if String.eqb ty "datetime" then "DateString | null"
  else if String.eqb ty "phone" then "PhoneString"
  else if String.eqb ty "string" then "string"
  else if String.eqb ty "textarea" then "string"
  else if String.eqb ty "reference" then "ID"
  else "string //" ++ ty.

(** [sObjects && sObjects.find(f => f === x)]: the list may be absent, and
    the outcome of [find] is tested for truthiness. *)
Definition inList (sObjects : option (list string)) (x : string) : bool :=
  match sObjects with
  | None => false
  | Some l => JS.truthy_opt (JS.find x l)
  end.

(** The inner [referenceTo.forEach] (lines 111-117); [refTypeName] starts
    out undefined. *)
Definition refStep (sObjects : option (list string))
    (refTypeName : option string) (r : string) : option string :=
  if inList sObjects r then
    Some (if JS.truthy_opt refTypeName
          then JS.template refTypeName ++ " | " ++ r
          else r)
  else refTypeName.

Definition refTypeName (sObjects : option (list string))
    (referenceTo : list string) : option string :=
  fold_left (refStep sObjects) referenceTo None.

(** What one pass of the [fields.forEach] callback appends (lines 75-121). *)
Definition fieldContents (sObjects : option (list string)) (field : Field.t)
    : string :=
  if String.eqb (Field.name field) "Id" then ""
  else
    (JS.nl ++ "  " ++ Field.name field ++ ": " ++ typeName (Field.type field) ++ ";")
    ++ (if Field.calculated field then " //calculated" else "")
    ++ (if String.eqb (Field.type field) "reference" then
          let rt := refTypeName sObjects (Field.referenceTo field) in
          if JS.truthy_opt rt
          then JS.nl ++ "  " ++ JS.template (Field.relationshipName field)
               ++ ": " ++ JS.template rt ++ ";"
          else ""
        else "").

(** The text of a child-records property. *)
Definition childRecords (indent prop childSObject : string) : string :=
  JS.nl ++ indent ++ prop ++ ": ChildRecords<" ++ childSObject ++ ", '"
  ++ childSObject ++ "'>;".

(** The state the [childRelationships.forEach] callback works on: the text
    so far, the per-call clone of the allow-list, and the generator's
    set of unmapped child entities. *)
Record BlockState : Type := mkBlock
  { typeContents : string;
    specialChildrenToMapClone : list string;
    unmapped : list string }.

(** One pass of the [childRelationships.forEach] callback (lines 124-151). *)
Definition childStep (sObjects : option (list string)) (st : BlockState)
    (child : ChildRelationship.t) : BlockState :=
  let childSObject := ChildRelationship.childSObject child in
  let childRelationshipName := ChildRelationship.relationshipName child in
  if inList sObjects childSObject then
    if JS.truthy_opt childRelationshipName then
      mkBlock (typeContents st
               ++ childRecords "  " (JS.template childRelationshipName) childSObject)
        (specialChildrenToMapClone st) (unmapped st)
    else if (0 <? length (ChildRelationship.junctionReferenceTo child))%nat then
      mkBlock (fold_left (fun tc j => tc ++ childRecords " " j childSObject)
                 (ChildRelationship.junctionReferenceTo child) (typeContents st))
        (specialChildrenToMapClone st) (unmapped st)
    else
      let index := JS.findIndex childSObject (specialChildrenToMapClone st) in
      if (0 <? index)%Z then
        mkBlock (typeContents st ++ JS.nl ++ "  " ++ childSObject ++ ": "
                 ++ childSObject ++ ";")
          (JS.splice1 index (specialChildrenToMapClone st)) (unmapped st)
      else st
  else if JS.truthy_opt childRelationshipName then
    mkBlock (typeContents st
             ++ childRecords "  " (JS.template childRelationshipName) childSObject)
      (specialChildrenToMapClone st) (JS.set_add childSObject (unmapped st))
  else st.

(** The part of [generateSObjectTypeContents] that runs once the describe
    call has resolved: it returns the block and the updated unmapped set. *)
Definition typeContentsOf (objectName : string) (describe : DescribeSObjectResult)
    (sObjects : option (list string)) (special : option (list string))
    (unmapped0 : list string) : string * list string :=
  let tc0 := JS.nl ++ JS.nl ++ "export interface " ++ objectName
             ++ " extends SObjectAttribute<'" ++ objectName ++ "'> {" in
  let clone := match special with Some l => l | None => [] end in
  let tc1 := fold_left (fun tc field => tc ++ fieldContents sObjects field)
               (fields describe) tc0 in
  let st := fold_left (childStep sObjects) (childRelationships describe)
              (mkBlock tc1 clone unmapped0) in
  (typeContents st ++ JS.nl ++ "};" ++ JS.nl, unmapped st).

(** ** Effects: the generator's fields, the files written, the two streams *)

(** What a run does that can be seen from outside, in the order it is
    done: a file written, a message on standard error, a line logged. *)
Inductive Event : Type :=
  | Wrote (path : string)
  | Printed (msg : string)
  | Logged (msg : string).

(** [files] holds the writes that completed, in order; [trace] holds every
    effect in order. *)
Record State : Type := mkState
  { createdFiles : list string;
    unmappedChildRelationships : list string;
    files : list (string * string);
    stderr : list string;
    log : list string;
    trace : list Event }.

(** How a call ends: it returns, it throws (a rejected promise), or it waits
    for ever on a promise that never settles. *)
Inductive Result (A : Type) : Type :=
  | Ok (a : A)
  | Throw
  | Blocked.

Arguments Ok {A} a.
Arguments Throw {A}.
Arguments Blocked {A}.

Definition M (A : Type) : Type := State -> Result A * State.

Definition ret {A : Type} (a : A) : M A := fun st => (Ok a, st).

Definition bind {A B : Type} (m : M A) (k : A -> M B) : M B :=
  fun st =>
    match m st with
    | (Ok a, st') => k a st'
    | (Throw, st') => (Throw, st')
    | (Blocked, st') => (Blocked, st')
    end.

Definition throw {A : Type} : M A := fun st => (Throw, st).

Declare Scope gen_scope.
Delimit Scope gen_scope with gen.
Notation "x <- m ;; k" := (bind m (fun x => k))
  (at level 61, m at next level, right associativity) : gen_scope.
Notation "m ;; k" := (bind m (fun _ => k))
  (at level 61, right associativity) : gen_scope.
Open Scope gen_scope.

Definition pushCreated (path : string) : M unit :=
  fun st => (Ok tt, mkState (createdFiles st ++ [path]) (unmappedChildRelationships st)
                      (files st) (stderr st) (log st) (trace st)).

Definition stderrWrite (msg : string) : M unit :=
  fun st => (Ok tt, mkState (createdFiles st) (unmappedChildRelationships st)
                      (files st) (stderr st ++ [msg]) (log st)
                      (trace st ++ [Printed msg])).

Definition uxLog (msg : string) : M unit :=
  fun st => (Ok tt, mkState (createdFiles st) (unmappedChildRelationships st)
                      (files st) (stderr st) (log st ++ [msg])
                      (trace st ++ [Logged msg])).

Definition setUnmapped (um : list string) : State -> State :=
  fun st => mkState (createdFiles st) um (files st) (stderr st) (log st) (trace st).

(** The outcome of [readFile]: the parsed document, a JSON syntax error
    (with the stack it prints), or a failure to read the file at all. *)
Inductive ReadResult : Type :=
  | Parsed (cfg : IConfig)
  | ParseError (stack : string)
  | ReadError.

(** The state of a [new Generator(params)] in a world where nothing has been
    written yet. *)
Definition newGenerator (createdFiles0 : list string) : State :=
  mkState createdFiles0 [] [] [] [] [].

(** The stub section appended to the batch document (lines 224-227). *)
Definition stubLine (unmappedType : string) : string :=
  JS.nl ++ "type " ++ unmappedType ++ " = any; ".

Definition appendStubs (typeContents0 : string) (unmapped0 : list string) : string :=
  fold_left (fun tc unmappedType => tc ++ stubLine unmappedType)
    (JS.sort unmapped0) (typeContents0 ++ JS.nl ++ "// unmapped types:").

(** The name of the file written in single-entity mode (lines 169 and 171),
    before it is joined to the output directory. *)
Definition sobjectFileName (objectName : string) : string :=
  let pascalObjectName := JS.replace_first "_" (JS.replace_first "__c" objectName) in
  JS.toLowerCase pascalObjectName ++ ".ts".

(** [Promise.all]: throws when a promise was rejected, returns when all are
    fulfilled, and otherwise never comes back. *)
Definition isRejected (p : JS.Promise) : bool :=
  match p with JS.Rejected => true | _ => false end.

Definition isPending (p : JS.Promise) : bool :=
  match p with JS.Pending => true | _ => false end.

Definition awaitAll (promises : list JS.Promise) : M unit :=
  if existsb isRejected promises then throw
  else if existsb isPending promises then (fun st => (Blocked, st))
  else ret tt.

(** Storing the outcome of the promise at one index. *)
Fixpoint settleAt (i : nat) (p : JS.Promise) (promises : list JS.Promise)
    : list JS.Promise :=
  match promises, i with
  | [], _ => []
  | _ :: ps, O => p :: ps
  | q :: ps, S i' => q :: settleAt i' p ps
  end.

Section Generator.

(** The collaborators: the schema source ([None] when the describe call
    fails), [path.join], the config loader, the file system, and the
    command's flags.  A file-system call succeeds or fails; which it does
    may depend on the writes that completed before it. *)
Variable describe : string -> option DescribeSObjectResult.
Variable join : string -> string -> string.
Variable readFileAt : string -> ReadResult.
Variable fsReaddir : list (string * string) -> string -> bool.
Variable fsWriteFile : list (string * string) -> string -> string -> bool.
Variable flags : OutputFlags.

(** [core.fs.readdir]: it lists the directory or throws; the listing is
    not used. *)
Definition readdir (dir : string) : M unit :=
  fun st => if fsReaddir (files st) dir then (Ok tt, st) else (Throw, st).

(** [core.fs.writeFile]: it writes the file or throws. *)
Definition writeFile (path content : string) : M unit :=
  fun st =>
    if fsWriteFile (files st) path content
    then (Ok tt, mkState (createdFiles st) (unmappedChildRelationships st)
                   (files st ++ [(path, content)]) (stderr st) (log st)
                   (trace st ++ [Wrote path]))
    else (Throw, st).

(** [generateSObjectTypeContents] (lines 67-155), from the moment the
    describe call settles. *)
Definition generateSObjectTypeContents (objectName : string)
    (sObjects : option (list string)) (special : option (list string)) : M string :=
  fun st =>
    match describe objectName with
    | None => (Throw, st)
    | Some d =>
        let r := typeContentsOf objectName d sObjects special
                   (unmappedChildRelationships st) in
        (Ok (fst r), setUnmapped (snd r) st)
    end.

(** [generateSObject] (lines 166-175). *)
Definition generateSObject : M unit :=
  match sobject flags with
  | None => throw
  | Some objectName =>
      let typeContents := generateFileHeader in
      typeContents <- generateSObjectTypeContents objectName None None ;;
      let filePath := join (outputdir flags) (sobjectFileName objectName) in
      writeFile filePath typeContents ;;
      pushCreated filePath
  end.

(** [readFile] (lines 177-193). *)
Definition readFile : M IConfig :=
  match config flags with
  | None => throw
  | Some path =>
      match readFileAt path with
      | Parsed cfg => ret cfg
      | ParseError stack =>
          stderrWrite ("FAILED TO PARSE JSON: '" ++ path ++ "'" ++ JS.nl) ;;
          stderrWrite (stack ++ JS.nl) ;;
          throw
      | ReadError => throw
      end
  end.

(** [createBaseSObjectType] (lines 195-200). *)
Definition createBaseSObjectType : M unit :=
  readdir (outputdir flags) ;;
  let filePath := join (outputdir flags) "sobject.ts" in
  writeFile filePath sobject_text ;;
  pushCreated filePath.

(** [createSalesforceFieldTypes] (lines 202-208). *)
Definition createSalesforceFieldTypes : M unit :=
  readdir (outputdir flags) ;;
  let filePath := join (outputdir flags) "sobjectFieldTypes.ts" in
  writeFile filePath sobjectFieldTypes ;;
  pushCreated filePath.

(** The describe calls of a batch complete in some order, [completion]
    (indices into the list of names); the rest of each call then runs
    without interruption and settles the promise of its index. *)
Definition settleOne (cfg : IConfig) (acc : list JS.Promise * State)
    (i : nat) : list JS.Promise * State :=
  let (promises, st) := acc in
  match nth_error (sobjects cfg) i with
  | None => (promises, st)
  | Some s =>
      match generateSObjectTypeContents s (Some (sobjects cfg))
              (specialChildrenToMap cfg) st with
      | (Ok tc, st') => (settleAt i (JS.Fulfilled tc) promises, st')
      | (_, st') => (settleAt i JS.Rejected promises, st')
      end
  end.

Definition settleAll (cfg : IConfig) (completion : list nat) : M (list JS.Promise) :=
  fun st =>
    let r := fold_left (settleOne cfg) completion
               (map (fun _ => JS.Pending) (sobjects cfg), st) in
    (Ok (fst r), snd r).

Fixpoint logProcessing (names : list string) : M unit :=
  match names with
  | [] => ret tt
  | s :: names' => uxLog ("Processing... " ++ s) ;; logProcessing names'
  end.

(** [generateSObjectsConfig] (lines 209-232). *)
Definition generateSObjectsConfig (completion : list nat) : M unit :=
  let typeContents := generateFileHeader in
  cfg <- readFile ;;
  logProcessing (sobjects cfg) ;;
  uxLog "Writing to file..." ;;
  promises <- settleAll cfg completion ;;
  awaitAll promises ;;
  let typeContents :=
    fold_left (fun tc p => tc ++ JS.toString p) promises typeContents in
  fun st =>
    let typeContents := appendStubs typeContents (unmappedChildRelationships st) in
    let filePath := join (outputdir flags) "sobjects.ts" in
    (writeFile filePath typeContents ;; pushCreated filePath) st.

(** [generate] (lines 52-65); it returns the list of created files. *)
Definition generate (completion : list nat) : M (list string) :=
  createBaseSObjectType ;;
  createSalesforceFieldTypes ;;
  (if JS.truthy_opt (sobject flags) && JS.truthy_opt (config flags) then
     stderrWrite "Please provide only -s or -c, not both"
   else if JS.truthy_opt (sobject flags) then generateSObject
   else if JS.truthy_opt (config flags) then generateSObjectsConfig completion
   else stderrWrite "Please provide a -s or -c") ;;
  fun st => (Ok (createdFiles st), st).

End Generator.

(** ** The vocabulary of the properties *)

(** The type tags the mapping table names. *)
Definition scalarTags : list string :=
  ["boolean"; "int"; "double"; "currency"; "date"; "datetime"; "phone";
   "string"; "textarea"; "reference"].

(** Membership in the known entity set. *)
Definition isKnown (known : list string) (x : string) : bool :=
  existsb (String.eqb x) known.

(** The targets of a reference field that are known, in the field's order. *)
Definition knownTargets (known referenceTo : list string) : list string :=
  filter (isKnown known) referenceTo.

(** The scalar property of a reference field. *)
Definition scalarLine (field : Field.t) : string :=
  JS.nl ++ "  " ++ Field.name field ++ ": ID;"
  ++ (if Field.calculated field then " //calculated" else "").

(** The relationship property of a reference field with the given targets. *)
Definition relationshipLine (prop : string) (targets : list string) : string :=
  JS.nl ++ "  " ++ prop ++ ": " ++ String.concat " | " targets ++ ";".

(** A child relationship that has a name. *)
Definition isNamed (child : ChildRelationship.t) : bool :=
  JS.truthy_opt (ChildRelationship.relationshipName child).

(** A child relationship without a name and without junction targets whose
    child entity is known. *)
Definition isBare (known : list string) (child : ChildRelationship.t) : bool :=
  negb (isNamed child)
  && (length (ChildRelationship.junctionReferenceTo child) =? 0)%nat
  && isKnown known (ChildRelationship.childSObject child).

(** How many of the relationships [pre] are bare and lead to the entity [c]. *)
Definition bareBefore (known : list string) (c : string)
    (pre : list ChildRelationship.t) : nat :=
  length (filter (fun x => isBare known x
                           && String.eqb (ChildRelationship.childSObject x) c) pre).

(** The bare singular property of a child entity. *)
Definition bareLine (c : string) : string :=
  JS.nl ++ "  " ++ c ++ ": " ++ c ++ ";".

(** The state reached in front of a child relationship: the relationships
    [pre] before it have been handled, starting from the text [tc], the
    caller's allow-list and the unmapped set [um]. *)
Definition beforeChild (known : list string) (special : option (list string))
    (pre : list ChildRelationship.t) (tc : string) (um : list string) : BlockState :=
  fold_left (childStep (Some known)) pre
    (mkBlock tc (match special with Some l => l | None => [] end) um).

(** The names declared in the stub section of a batch run. *)
Definition stubNames (st : State) : list string :=
  JS.sort (unmappedChildRelationships st).

(** The stub section as text. *)
Definition stubSection (names : list string) : string :=
  JS.nl ++ "// unmapped types:" ++ String.concat "" (map stubLine names).

(** The first line of an entity block. *)
Definition blockOpening (objectName : string) : string :=
  JS.nl ++ JS.nl ++ "export interface " ++ objectName
  ++ " extends SObjectAttribute<'" ++ objectName ++ "'> {".

(** What a field and a child relationship contribute in single-entity mode. *)
Definition singleFieldLine (field : Field.t) : string :=
  if String.eqb (Field.name field) "Id" then ""
  else JS.nl ++ "  " ++ Field.name field ++ ": " ++ typeName (Field.type field) ++ ";"
       ++ (if Field.calculated field then " //calculated" else "").

Definition singleChildLine (child : ChildRelationship.t) : string :=
  if isNamed child
  then childRecords "  " (JS.template (ChildRelationship.relationshipName child))
         (ChildRelationship.childSObject child)
  else "".

(** The last file written. *)
Definition lastFile (st : State) : option (string * string) :=
  List.last (map Some (files st)) None.


(** The order the default sort puts strings in. *)
Definition codeUnitLe (a b : string) : Prop := String.leb a b = true.

(** A child relationship of [d] that sends the entity [x] to the unmapped
    set: it has a name and the generator does not find [x] in its list. *)
Definition sendsUnmapped (sObjects : option (list string))
    (d : DescribeSObjectResult) (x : string) : Prop :=
  exists child,
    In child (childRelationships d)
    /\ ChildRelationship.childSObject child = x
    /\ isNamed child = true
    /\ inList sObjects x = false.

(** The promises and the generator once the describe calls of a batch have
    completed in the order [completion]. *)
Definition settled (describe : string -> option DescribeSObjectResult)
    (cfg : IConfig) (completion : list nat) (st : State)
    : list JS.Promise * State :=
  fold_left (settleOne describe cfg) completion
    (map (fun _ => JS.Pending) (sobjects cfg), st).

(** The document of a batch over [n] entity names whose run collected the
    unmapped set [um]. *)
Definition batchDocument (n : nat) (um : list string) : string :=
  generateFileHeader
  ++ String.concat "" (repeat "[object Promise]" n)
  ++ stubSection (JS.sort um).

(** A completion order: every describe call of the batch completes once. *)
Definition isCompletion (cfg : IConfig) (completion : list nat) : Prop :=
  Permutation completion (seq 0 (length (sobjects cfg))).

(** ** Sample data *)

Definition sampleJoin (dir file : string) : string := dir ++ "/" ++ file.

(** A file system on which every call succeeds, one whose output
    directory cannot be listed, and one on which no file can be written. *)
Definition sampleReaddir (written : list (string * string)) (dir : string) : bool :=
  true.

Definition sampleWriteFile (written : list (string * string))
    (path content : string) : bool := true.


Definition fullWriteFile (written : list (string * string))
    (path content : string) : bool := false.

Definition sampleAccount : DescribeSObjectResult :=
  mkDescribe
    [ Field.mk "Id" "id" false [] None;
      Field.mk "Name" "string" false [] None;
      Field.mk "Age__c" "double" true [] None;
      Field.mk "OwnerId" "reference" false ["User"; "Group"; "Contact"] (Some "Owner");
      Field.mk "Geo" "location" false [] None ]
    [ ChildRelationship.mk "Contact" (Some "Contacts") [];
      ChildRelationship.mk "Case" (Some "Cases") [];
      ChildRelationship.mk "Contact" None [];
      ChildRelationship.mk "Contact" None [];
      ChildRelationship.mk "Link" None ["A"; "B"] ].

Definition sampleContact : DescribeSObjectResult :=
  mkDescribe
    [ Field.mk "AccountId" "reference" false ["Account"] (Some "Account") ]
    [ ChildRelationship.mk "Case" (Some "Cases") [];
      ChildRelationship.mk "Asset" (Some "Assets") [] ].

Definition sampleDescribe (s : string) : option DescribeSObjectResult :=
  if String.eqb s "Account" then Some sampleAccount
  else if String.eqb s "Contact" then Some sampleContact
  else if String.eqb s "Link" then Some (mkDescribe [] [])
  else None.

Definition sampleConfig : IConfig :=
  mkConfig ["Account"; "Contact"] (Some ["Link"; "Contact"]).

Definition sampleReadFile (path : string) : ReadResult := Parsed sampleConfig.

Definition configFlags : OutputFlags := mkFlags None (Some "config.json") "out".

Definition singleFlags : OutputFlags := mkFlags (Some "Contact") None "out".

Definition ownerField : Field.t :=
  Field.mk "OwnerId" "reference" false ["User"; "Group"; "Contact"] (Some "Owner").

Definition casesChild : ChildRelationship.t :=
  ChildRelationship.mk "Case" (Some "Cases") [].

Definition bareContact : ChildRelationship.t :=
  ChildRelationship.mk "Contact" None [].

Definition missingFlags : OutputFlags := mkFlags (Some "Missing") None "out".

Definition brokenConfig : IConfig := mkConfig ["Account"; "Missing"] None.

Definition brokenReadFile (path : string) : ReadResult := Parsed brokenConfig.


Definition linkChild : ChildRelationship.t :=
  ChildRelationship.mk "Link" None ["A"; "B"].

Definition namelessField : Field.t :=
  Field.mk "WhoId" "reference" false ["Contact"; "Lead"] None.

(** ** Further vocabulary *)

(** The text the child relationships add to a block, given the allow-list
    the call starts from. *)
Definition childrenText (sObjects : option (list string)) (allow : list string)
    (children : list ChildRelationship.t) : string :=
  typeContents (fold_left (childStep sObjects) children (mkBlock "" allow [])).

(** The caller's allow-list as the builder clones it. *)
Definition allowList (special : option (list string)) : list string :=
  match special with Some l => l | None => [] end.

(** A describe result without its [Id] fields. *)
Definition withoutId (d : DescribeSObjectResult) : DescribeSObjectResult :=
  mkDescribe
    (filter (fun field => negb (String.eqb (Field.name field) "Id")) (fields d))
    (childRelationships d).

(** A name that holds no underscore. *)
Fixpoint noUnderscore (s : string) : bool :=
  match s with
  | EmptyString => true
  | String c s' => negb (Ascii.eqb c "_") && noUnderscore s'
  end.

(** The two fixed files, as written into the output directory. *)
Definition preambleFiles (join : string -> string -> string) (flags : OutputFlags)
    : list (string * string) :=
  [(join (outputdir flags) "sobject.ts", sobject_text);
   (join (outputdir flags) "sobjectFieldTypes.ts", sobjectFieldTypes)].


(** The generator once the two fixed files are written. *)
Definition afterPreamble (join : string -> string -> string) (flags : OutputFlags)
    (st : State) : State :=
  mkState
    ((createdFiles st ++ [join (outputdir flags) "sobject.ts"])
     ++ [join (outputdir flags) "sobjectFieldTypes.ts"])
    (unmappedChildRelationships st)
    ((files st ++ [(join (outputdir flags) "sobject.ts", sobject_text)])
     ++ [(join (outputdir flags) "sobjectFieldTypes.ts", sobjectFieldTypes)])
    (stderr st) (log st)
    ((trace st ++ [Wrote (join (outputdir flags) "sobject.ts")])
     ++ [Wrote (join (outputdir flags) "sobjectFieldTypes.ts")]).

(** Every call to the file system succeeds. *)
Definition fsSucceeds (fsReaddir : list (string * string) -> string -> bool)
    (fsWriteFile : list (string * string) -> string -> string -> bool) : Prop :=
  (forall written dir, fsReaddir written dir = true)
  /\ (forall written path content, fsWriteFile written path content = true).

(** Every write succeeds. *)
Definition writesSucceed
    (fsWriteFile : list (string * string) -> string -> string -> bool) : Prop :=
  forall written path content, fsWriteFile written path content = true.

(** One list is the beginning of another. *)
Definition startOf {A : Type} (short long : list A) : Prop :=
  exists rest, long = (short ++ rest)%list.

(** The choice of mode in [generate] (lines 55-63). *)
Definition dispatch (describe : string -> option DescribeSObjectResult)
    (join : string -> string -> string) (readFileAt : string -> ReadResult)
    (fsWriteFile : list (string * string) -> string -> string -> bool)
    (flags : OutputFlags) (completion : list nat) : M unit :=
  if JS.truthy_opt (sobject flags) && JS.truthy_opt (config flags) then
    stderrWrite "Please provide only -s or -c, not both"
  else if JS.truthy_opt (sobject flags) then
    generateSObject describe join fsWriteFile flags
  else if JS.truthy_opt (config flags) then
    generateSObjectsConfig describe join readFileAt fsWriteFile flags completion
  else stderrWrite "Please provide a -s or -c".

(** ** Strings, lists and the sort *)

Lemma append_assoc (a b c : string) : (a ++ b) ++ c = a ++ (b ++ c).
Proof.
  induction a as [|x a IH]; simpl; [reflexivity | now rewrite IH].
Qed.

Lemma append_nil_r (a : string) : a ++ "" = a.
Proof.
  induction a as [|x a IH]; simpl; [reflexivity | now rewrite IH].
Qed.

Lemma truthy_true_iff (s : string) : JS.truthy s = true <-> s <> "".
Proof.
  unfold JS.truthy. destruct (String.eqb_spec s ""); simpl; split; congruence.
Qed.

Lemma isKnown_In (known : list string) (x : string) :
  isKnown known x = true <-> In x known.
Proof.
  unfold isKnown. rewrite existsb_exists. split.
  - intros [y [Hy Heq]]. apply String.eqb_eq in Heq. now subst.
  - intros H. exists x. split; [assumption | apply String.eqb_refl].
Qed.

(** [find] returns the sought string itself when it is there. *)
Lemma find_In (x : string) (l : list string) :
  In x l -> JS.find x l = Some x.
Proof.
  unfold JS.find. induction l as [|y l IH]; simpl; [tauto|].
  intros [-> | H].
  - now rewrite String.eqb_refl.
  - destruct (String.eqb_spec y x) as [-> | _]; auto.
Qed.

Lemma find_not_In (x : string) (l : list string) :
  ~ In x l -> JS.find x l = None.
Proof.
  unfold JS.find. induction l as [|y l IH]; simpl; [reflexivity|].
  intros H. destruct (String.eqb_spec y x) as [-> | _]; [tauto|].
  apply IH. tauto.
Qed.

(** On names that are not empty, the generator's test is membership. *)
Lemma inList_known (known : list string) (x : string) :
  x <> "" -> inList (Some known) x = isKnown known x.
Proof.
  intros Hx. simpl. destruct (isKnown known x) eqn:E.
  - apply isKnown_In in E. rewrite (find_In _ _ E). simpl.
    now apply truthy_true_iff.
  - rewrite find_not_In; [reflexivity|].
    intros H. apply isKnown_In in H. congruence.
Qed.

Lemma inList_unknown (known : list string) (x : string) :
  ~ In x known -> inList (Some known) x = false.
Proof.
  intros H. simpl. now rewrite find_not_In.
Qed.

Lemma inList_absent (x : string) : inList None x = false.
Proof. reflexivity. Qed.

(** ** The type mapper *)

(** C1: the scalar mapping is a total function that sends each tag of the
    table to its target expression and every other tag [ty] to
    [string //ty]; a field that is not [Id] gets a property line with
    that type whatever its tag. *)
Theorem typeName_mapping (ty : string) :
  (ty = "boolean" -> typeName ty = "boolean") /\
  (ty = "int" \/ ty = "double" \/ ty = "currency" -> typeName ty = "number") /\
  (ty = "date" \/ ty = "datetime" -> typeName ty = "DateString | null") /\
  (ty = "phone" -> typeName ty = "PhoneString") /\
  (ty = "string" \/ ty = "textarea" -> typeName ty = "string") /\
  (ty = "reference" -> typeName ty = "ID") /\
  (~ In ty scalarTags -> typeName ty = "string //" ++ ty) /\
  (forall sObjects field,
      Field.type field = ty -> Field.name field <> "Id" ->
      exists rest,
        fieldContents sObjects field
        = (JS.nl ++ "  " ++ Field.name field ++ ": " ++ typeName ty ++ ";") ++ rest).
Proof.
  repeat split.
  - now intros ->.
  - intros [-> | [-> | ->]]; reflexivity.
  - intros [-> | ->]; reflexivity.
  - now intros ->.
  - intros [-> | ->]; reflexivity.
  - now intros ->.
  - intros Hother. unfold typeName.
    repeat match goal with
           | |- context [String.eqb ty ?tag] =>
               destruct (String.eqb_spec ty tag) as [-> | _];
               [exfalso; apply Hother; simpl; tauto|]
           end.
    reflexivity.
  - intros sObjects field <- Hname. unfold fieldContents.
    destruct (String.eqb_spec (Field.name field) "Id") as [E | _]; [contradiction|].
    eexists. reflexivity.
Qed.

Lemma typeName_mapping_witness :
  typeName "location" = "string //location"
  /\ typeName "currency" = "number".
Proof.
  split.
  - apply (typeName_mapping "location").
    unfold scalarTags. simpl. intros H.
    repeat (destruct H as [H | H]; [discriminate H|]). exact H.
  - apply (typeName_mapping "currency"). right. right. reflexivity.
Defined.

(** ** The reference resolver *)

Lemma concat_empty_cons (x : string) (l : list string) :
  String.concat "" (x :: l) = x ++ String.concat "" l.
Proof.
  destruct l; simpl; [now rewrite append_nil_r | reflexivity].
Qed.

Lemma knownTargets_cons (known : list string) (r : string) (l : list string) :
  knownTargets known (r :: l)
  = if isKnown known r then r :: knownTargets known l else knownTargets known l.
Proof. reflexivity. Qed.

(** Once a type name has been collected, the loop over the remaining
    targets appends each known one behind a bar. *)
Lemma refTypeName_from (known : list string) :
  ~ In "" known ->
  forall (referenceTo : list string) (acc : string),
    acc <> "" ->
    fold_left (refStep (Some known)) referenceTo (Some acc)
    = Some (acc ++ String.concat ""
                     (map (fun r => " | " ++ r) (knownTargets known referenceTo))).
Proof.
  intros Hne. induction referenceTo as [|r l IH]; intros acc Hacc.
  - simpl. now rewrite append_nil_r.
  - cbn [fold_left]. rewrite knownTargets_cons. unfold refStep at 2.
    destruct (isKnown known r) eqn:E.
    + assert (Hr : r <> "") by (apply isKnown_In in E; congruence).
      rewrite (inList_known _ _ Hr), E.
      replace (JS.truthy_opt (Some acc)) with true
        by (symmetry; now apply truthy_true_iff).
      cbn [JS.template map]. rewrite concat_empty_cons, IH.
      * now rewrite !append_assoc.
      * destruct acc; [congruence | discriminate].
    + assert (Hin : inList (Some known) r = false).
      { apply inList_unknown. intros H. apply isKnown_In in H. congruence. }
      rewrite Hin. now apply IH.
Qed.

Lemma concat_bar (a : string) (l : list string) :
  String.concat " | " (a :: l)
  = a ++ String.concat "" (map (fun r => " | " ++ r) l).
Proof.
  revert a. induction l as [|b l IH]; intros a.
  - simpl. now rewrite append_nil_r.
  - change (String.concat " | " (a :: b :: l))
      with (a ++ " | " ++ String.concat " | " (b :: l)).
    rewrite IH. cbn [map]. rewrite concat_empty_cons.
    now rewrite !append_assoc.
Qed.

Lemma concat_nonempty (sep : string) (a : string) (l : list string) :
  a <> "" -> String.concat sep (a :: l) <> "".
Proof.
  intros Ha. destruct a as [|c a]; [congruence|].
  destruct l; simpl; discriminate.
Qed.

(** The resolver returns nothing when no target is known, and otherwise the
    known targets joined by bars in the order of the field. *)
Lemma refTypeName_known (known referenceTo : list string) :
  ~ In "" known ->
  refTypeName (Some known) referenceTo
  = match knownTargets known referenceTo with
    | [] => None
    | ts => Some (String.concat " | " ts)
    end.
Proof.
  intros Hne. unfold refTypeName.
  induction referenceTo as [|r l IH]; [reflexivity|].
  cbn [fold_left]. rewrite knownTargets_cons. unfold refStep at 2.
  destruct (isKnown known r) eqn:E.
  - assert (Hr : r <> "") by (apply isKnown_In in E; congruence).
    rewrite (inList_known _ _ Hr), E. cbn [JS.truthy_opt].
    rewrite (refTypeName_from known Hne l r Hr).
    now rewrite concat_bar.
  - assert (Hin : inList (Some known) r = false).
    { apply inList_unknown. intros H. apply isKnown_In in H. congruence. }
    rewrite Hin. exact IH.
Qed.

(** C2: for a reference field (other than [Id]) with relationship name
    [rn], over a known set of non-empty entity names: the field emits its
    scalar [ID] property, followed by the property [rn] typed with the known
    targets joined in the field's order when there is one, and by nothing
    when there is none; with exactly one known target [a] the type is [a]. *)
Theorem reference_relationship_property
    (known : list string) (field : Field.t) (rn : string) :
  Field.type field = "reference" ->
  Field.name field <> "Id" ->
  Field.relationshipName field = Some rn ->
  ~ In "" known ->
  fieldContents (Some known) field
  = scalarLine field
    ++ match knownTargets known (Field.referenceTo field) with
       | [] => ""
       | ts => relationshipLine rn ts
       end
  /\ (forall a, knownTargets known (Field.referenceTo field) = [a] ->
        fieldContents (Some known) field
        = scalarLine field ++ JS.nl ++ "  " ++ rn ++ ": " ++ a ++ ";")
  /\ (knownTargets known (Field.referenceTo field) = [] ->
        fieldContents (Some known) field = scalarLine field).
Proof.
  intros Hty Hname Hrn Hne.
  assert (Hmain : fieldContents (Some known) field
                  = scalarLine field
                    ++ match knownTargets known (Field.referenceTo field) with
                       | [] => ""
                       | ts => relationshipLine rn ts
                       end).
  { unfold fieldContents, scalarLine.
    destruct (String.eqb_spec (Field.name field) "Id") as [E | _]; [contradiction|].
    rewrite Hty, Hrn. cbn [String.eqb Ascii.eqb Bool.eqb typeName].
    change (typeName "reference") with "ID".
    rewrite (refTypeName_known _ _ Hne).
    destruct (knownTargets known (Field.referenceTo field)) as [|a ts] eqn:Ek.
    - cbn [JS.truthy_opt]. now rewrite !append_assoc.
    - assert (Ha : a <> "").
      { assert (Hin : In a (knownTargets known (Field.referenceTo field)))
          by (rewrite Ek; now left).
        apply filter_In in Hin. destruct Hin as [_ Hk].
        apply isKnown_In in Hk. congruence. }
      replace (JS.truthy_opt (Some (String.concat " | " (a :: ts)))) with true
        by (symmetry; apply truthy_true_iff; now apply concat_nonempty).
      cbn [JS.template]. unfold relationshipLine. now rewrite !append_assoc. }
  split; [exact Hmain|]. split.
  - intros a Ha. rewrite Hmain, Ha. reflexivity.
  - intros Hnone. rewrite Hmain, Hnone. apply append_nil_r.
Qed.

Lemma reference_relationship_property_witness :
  fieldContents (Some ["Account"; "Contact"; "User"]) ownerField
  = scalarLine ownerField ++ relationshipLine "Owner" ["User"; "Contact"].
Proof.
  refine (proj1 (reference_relationship_property
                   ["Account"; "Contact"; "User"] ownerField "Owner" _ _ _ _)).
  - reflexivity.
  - discriminate.
  - reflexivity.
  - simpl. intros H. repeat (destruct H as [H | H]; [discriminate H|]). exact H.
Defined.

(** ** The default sort *)

Lemma compare_refl (a : string) : String.compare a a = Eq.
Proof.
  induction a as [|x a IH]; simpl; [reflexivity|].
  unfold Ascii.compare. now rewrite N.compare_refl.
Qed.

Lemma codeUnitLe_refl (a : string) : codeUnitLe a a.
Proof. unfold codeUnitLe, String.leb. now rewrite compare_refl. Qed.

Lemma codeUnitLe_trans (a b c : string) :
  codeUnitLe a b -> codeUnitLe b c -> codeUnitLe a c.
Proof.
  unfold codeUnitLe, String.leb. revert b c.
  induction a as [|x a IH]; intros [|y b] [|z c]; simpl; try congruence.
  unfold Ascii.compare.
  destruct (N.compare_spec (N_of_ascii x) (N_of_ascii y)) as [Exy | Lxy | Gxy];
    destruct (N.compare_spec (N_of_ascii y) (N_of_ascii z)) as [Eyz | Lyz | Gyz];
    try congruence.
  - rewrite Exy, Eyz, N.compare_refl. apply IH.
  - intros _ _. rewrite Exy.
    destruct (N.compare_spec (N_of_ascii y) (N_of_ascii z)); try lia; congruence.
  - intros _ _. rewrite <- Eyz.
    destruct (N.compare_spec (N_of_ascii x) (N_of_ascii y)); try lia; congruence.
  - intros _ _.
    destruct (N.compare_spec (N_of_ascii x) (N_of_ascii z)); try lia; congruence.
Qed.

Lemma codeUnitLe_antisym (a b : string) :
  codeUnitLe a b -> codeUnitLe b a -> a = b.
Proof. apply String.leb_antisym. Qed.

Lemma codeUnitLe_total (a b : string) : codeUnitLe a b \/ codeUnitLe b a.
Proof. apply String.leb_total. Qed.

Lemma insert_perm (x : string) (l : list string) :
  Permutation (JS.insert x l) (x :: l).
Proof.
  induction l as [|y l IH]; simpl; [reflexivity|].
  destruct (String.leb x y); [reflexivity|].
  rewrite IH. apply perm_swap.
Qed.

Lemma sort_perm (l : list string) : Permutation (JS.sort l) l.
Proof.
  induction l as [|x l IH]; simpl; [reflexivity|].
  rewrite insert_perm. now constructor.
Qed.

Lemma insert_sorted (x : string) (l : list string) :
  StronglySorted codeUnitLe l -> StronglySorted codeUnitLe (JS.insert x l).
Proof.
  induction 1 as [|y l Hs IH Hall]; simpl.
  - constructor; constructor.
  - destruct (String.leb x y) eqn:E.
    + constructor; [now constructor|].
      constructor; [exact E|].
      eapply Forall_impl; [|exact Hall].
      intros z Hz. now apply (codeUnitLe_trans x y z).
    + constructor; [exact IH|].
      assert (Hyx : codeUnitLe y x).
      { destruct (codeUnitLe_total x y) as [H | H]; [|exact H].
        unfold codeUnitLe in H. congruence. }
      apply (Permutation_Forall (x := x :: l)).
      * symmetry. apply insert_perm.
      * now constructor.
Qed.

Lemma sort_sorted (l : list string) : StronglySorted codeUnitLe (JS.sort l).
Proof.
  induction l as [|x l IH]; simpl; [constructor | now apply insert_sorted].
Qed.

(** A list has one sorted arrangement. *)
Lemma sorted_perm_eq (l1 : list string) :
  forall l2,
    StronglySorted codeUnitLe l1 -> StronglySorted codeUnitLe l2 ->
    Permutation l1 l2 -> l1 = l2.
Proof.
  induction l1 as [|a l1 IH]; intros l2 H1 H2 HP.
  - apply Permutation_nil in HP. now subst.
  - destruct l2 as [|b l2].
    + symmetry in HP. apply Permutation_nil in HP. discriminate.
    + inversion H1 as [|? ? Hs1 Ha]; subst.
      inversion H2 as [|? ? Hs2 Hb]; subst.
      assert (Hab : a = b).
      { assert (Ia : In a (b :: l2))
          by (eapply Permutation_in; [exact HP | now left]).
        assert (Ib : In b (a :: l1))
          by (eapply Permutation_in; [symmetry; exact HP | now left]).
        destruct Ia as [-> | Ia]; [reflexivity|].
        destruct Ib as [-> | Ib]; [reflexivity|].
        rewrite Forall_forall in Ha, Hb.
        apply codeUnitLe_antisym; auto. }
      subst b. f_equal. apply IH; auto.
      now apply Permutation_cons_inv in HP.
Qed.

Lemma sort_of_perm (l1 l2 : list string) :
  Permutation l1 l2 -> JS.sort l1 = JS.sort l2.
Proof.
  intros HP. apply sorted_perm_eq; try apply sort_sorted.
  rewrite !sort_perm. exact HP.
Qed.

(** ** The unmapped set *)

Lemma set_add_In (x y : string) (s : list string) :
  In x (JS.set_add y s) <-> x = y \/ In x s.
Proof.
  unfold JS.set_add. destruct (existsb (String.eqb y) s) eqn:E.
  - split; [tauto|]. intros [-> | H]; [|exact H].
    now apply (isKnown_In s y).
  - rewrite in_app_iff. simpl. intuition.
Qed.

Lemma set_add_NoDup (y : string) (s : list string) :
  NoDup s -> NoDup (JS.set_add y s).
Proof.
  intros Hs. unfold JS.set_add. destruct (existsb (String.eqb y) s) eqn:E.
  - exact Hs.
  - apply NoDup_app; [exact Hs | repeat constructor; simpl; tauto |].
    intros x Hx [<- | []].
    apply (isKnown_In s y) in Hx. unfold isKnown in Hx. congruence.
Qed.

(** What one child relationship does to the unmapped set. *)
Lemma childStep_unmapped (sObjects : option (list string)) (st : BlockState)
    (child : ChildRelationship.t) :
  unmapped (childStep sObjects st child)
  = if negb (inList sObjects (ChildRelationship.childSObject child)) && isNamed child
    then JS.set_add (ChildRelationship.childSObject child) (unmapped st)
    else unmapped st.
Proof.
  unfold childStep, isNamed.
  destruct (inList sObjects (ChildRelationship.childSObject child));
    destruct (JS.truthy_opt (ChildRelationship.relationshipName child)); simpl;
    try reflexivity.
  destruct (0 <? length (ChildRelationship.junctionReferenceTo child))%nat;
    [reflexivity|].
  destruct (0 <? JS.findIndex (ChildRelationship.childSObject child)
                   (specialChildrenToMapClone st))%Z; reflexivity.
Qed.

Lemma children_unmapped_In (sObjects : option (list string)) (x : string)
    (children : list ChildRelationship.t) :
  forall st,
    In x (unmapped (fold_left (childStep sObjects) children st))
    <-> In x (unmapped st)
        \/ exists child,
             In child children
             /\ ChildRelationship.childSObject child = x
             /\ isNamed child = true
             /\ inList sObjects x = false.
Proof.
  induction children as [|c children IH]; intros st; simpl.
  - split; [tauto|]. intros [H | [c [[] _]]]. exact H.
  - rewrite IH, childStep_unmapped.
    destruct (inList sObjects (ChildRelationship.childSObject c)) eqn:Ein;
      destruct (isNamed c) eqn:En; simpl; try rewrite set_add_In.
    all: split;
      [ intros [H | [c' (Hc' & Hx & Hn & Hi)]];
        [ try tauto | right; exists c'; tauto ]
      | intros [H | [c' ([<- | Hc'] & Hx & Hn & Hi)]];
        [ tauto | try (subst x; congruence) | right; exists c'; tauto ] ].
    + destruct H as [-> | H]; [|tauto].
      right. exists c. tauto.
    + subst x. tauto.
Qed.

Lemma children_unmapped_NoDup (sObjects : option (list string))
    (children : list ChildRelationship.t) :
  forall st,
    NoDup (unmapped st) ->
    NoDup (unmapped (fold_left (childStep sObjects) children st)).
Proof.
  induction children as [|c children IH]; intros st Hst; simpl; [exact Hst|].
  apply IH. rewrite childStep_unmapped.
  destruct (negb (inList sObjects (ChildRelationship.childSObject c)) && isNamed c);
    [now apply set_add_NoDup | exact Hst].
Qed.

Lemma typeContentsOf_unmapped_In (objectName : string) (d : DescribeSObjectResult)
    (sObjects special : option (list string)) (um : list string) (x : string) :
  In x (snd (typeContentsOf objectName d sObjects special um))
  <-> In x um \/ sendsUnmapped sObjects d x.
Proof.
  unfold typeContentsOf, sendsUnmapped. cbn [snd].
  rewrite children_unmapped_In. reflexivity.
Qed.

Lemma typeContentsOf_unmapped_NoDup (objectName : string) (d : DescribeSObjectResult)
    (sObjects special : option (list string)) (um : list string) :
  NoDup um -> NoDup (snd (typeContentsOf objectName d sObjects special um)).
Proof.
  intros H. unfold typeContentsOf. cbn [snd].
  now apply children_unmapped_NoDup.
Qed.

(** ** The batch run *)

Lemma settleAt_length (i : nat) (p : JS.Promise) (ps : list JS.Promise) :
  length (settleAt i p ps) = length ps.
Proof.
  revert i. induction ps as [|q ps IH]; intros [|i]; simpl; auto.
Qed.

Lemma settleAt_same (i : nat) (p : JS.Promise) (ps : list JS.Promise) :
  i < length ps -> nth_error (settleAt i p ps) i = Some p.
Proof.
  revert i. induction ps as [|q ps IH]; intros [|i]; simpl; try lia; auto.
  intros H. apply IH. lia.
Qed.

Lemma settleAt_other (i j : nat) (p : JS.Promise) (ps : list JS.Promise) :
  i <> j -> nth_error (settleAt i p ps) j = nth_error ps j.
Proof.
  revert i j. induction ps as [|q ps IH]; intros [|i] [|j]; simpl; auto; try lia.
Qed.

Lemma toString_all (ps : list JS.Promise) :
  map JS.toString ps = repeat "[object Promise]" (length ps).
Proof.
  induction ps as [|p ps IH]; simpl; [reflexivity | now rewrite IH].
Qed.

Lemma fold_append {A : Type} (f : A -> string) (l : list A) :
  forall tc,
    fold_left (fun tc x => tc ++ f x) l tc = tc ++ String.concat "" (map f l).
Proof.
  induction l as [|x l IH]; intros tc.
  - simpl. now rewrite append_nil_r.
  - cbn [fold_left map]. rewrite IH, concat_empty_cons. apply append_assoc.
Qed.

Lemma appendStubs_section (tc : string) (um : list string) :
  appendStubs tc um = tc ++ stubSection (JS.sort um).
Proof.
  unfold appendStubs, stubSection. rewrite fold_append.
  now rewrite !append_assoc.
Qed.

Lemma logProcessing_runs (names : list string) :
  forall st,
    logProcessing names st
    = (Ok tt, mkState (createdFiles st) (unmappedChildRelationships st) (files st)
                (stderr st)
                (log st ++ map (fun s => "Processing... " ++ s) names)
                (trace st ++ map (fun s => Logged ("Processing... " ++ s)) names)).
Proof.
  induction names as [|s names IH]; intros st.
  - simpl. rewrite !app_nil_r. now destruct st.
  - cbn [logProcessing]. unfold bind, uxLog. rewrite IH.
    cbn [createdFiles unmappedChildRelationships files stderr log trace map].
    now rewrite <- !app_assoc.
Qed.

Section Batch.

Variable describe : string -> option DescribeSObjectResult.

Lemma settleOne_eq (cfg : IConfig) (ps : list JS.Promise) (st : State) (i : nat) :
  settleOne describe cfg (ps, st) i
  = match nth_error (sobjects cfg) i with
    | None => (ps, st)
    | Some s =>
        match describe s with
        | None => (settleAt i JS.Rejected ps, st)
        | Some d =>
            let r := typeContentsOf s d (Some (sobjects cfg))
                       (specialChildrenToMap cfg) (unmappedChildRelationships st) in
            (settleAt i (JS.Fulfilled (fst r)) ps, setUnmapped (snd r) st)
        end
    end.
Proof.
  unfold settleOne, generateSObjectTypeContents.
  destruct (nth_error (sobjects cfg) i) as [s|]; [|reflexivity].
  destruct (describe s) as [d|]; reflexivity.
Qed.

(** A describe call that completes only touches the unmapped set. *)
Lemma settleOne_frame (cfg : IConfig) (ps : list JS.Promise) (st : State) (i : nat) :
  let r := settleOne describe cfg (ps, st) i in
  createdFiles (snd r) = createdFiles st
  /\ files (snd r) = files st
  /\ stderr (snd r) = stderr st
  /\ log (snd r) = log st
  /\ length (fst r) = length ps.
Proof.
  cbn zeta. rewrite settleOne_eq.
  destruct (nth_error (sobjects cfg) i) as [s|]; [|cbn [fst snd]; tauto].
  destruct (describe s) as [d|]; cbn [fst snd]; rewrite settleAt_length;
    unfold setUnmapped; cbn [createdFiles files stderr log]; tauto.
Qed.

Lemma settled_frame (cfg : IConfig) (completion : list nat) :
  forall ps st,
    let r := fold_left (settleOne describe cfg) completion (ps, st) in
    createdFiles (snd r) = createdFiles st
    /\ files (snd r) = files st
    /\ stderr (snd r) = stderr st
    /\ log (snd r) = log st
    /\ length (fst r) = length ps.
Proof.
  induction completion as [|i completion IH]; intros ps st; [cbn; tauto|].
  cbn [fold_left].
  pose proof (settleOne_frame cfg ps st i) as F.
  destruct (settleOne describe cfg (ps, st) i) as [ps1 st1].
  specialize (IH ps1 st1). cbn [fst snd] in *. cbn zeta in *.
  destruct F as (F1 & F2 & F3 & F4 & F5), IH as (I1 & I2 & I3 & I4 & I5).
  repeat split; congruence.
Qed.

Lemma settleOne_unmapped (cfg : IConfig) (x : string) (ps : list JS.Promise)
    (st : State) (i : nat) :
  In x (unmappedChildRelationships (snd (settleOne describe cfg (ps, st) i)))
  <-> In x (unmappedChildRelationships st)
      \/ exists s d,
           nth_error (sobjects cfg) i = Some s
           /\ describe s = Some d
           /\ sendsUnmapped (Some (sobjects cfg)) d x.
Proof.
  rewrite settleOne_eq.
  destruct (nth_error (sobjects cfg) i) as [s|] eqn:En.
  - destruct (describe s) as [d|] eqn:Ed; cbn [fst snd].
    + unfold setUnmapped. cbn [unmappedChildRelationships].
      rewrite typeContentsOf_unmapped_In. split.
      * intros [H | H]; [tauto|]. right. exists s, d. tauto.
      * intros [H | (s' & d' & Hs & Hd & Hx)]; [tauto|].
        right. congruence.
    + split; [tauto|].
      intros [H | (s' & d' & Hs & Hd & Hx)]; [exact H | congruence].
  - cbn [snd]. split; [tauto|].
    intros [H | (s' & d' & Hs & _)]; [exact H | discriminate].
Qed.

Lemma settleOne_NoDup (cfg : IConfig) (ps : list JS.Promise) (st : State) (i : nat) :
  NoDup (unmappedChildRelationships st) ->
  NoDup (unmappedChildRelationships (snd (settleOne describe cfg (ps, st) i))).
Proof.
  intros Hst. rewrite settleOne_eq.
  destruct (nth_error (sobjects cfg) i) as [s|]; [|exact Hst].
  destruct (describe s) as [d|]; cbn [fst snd]; [|exact Hst].
  unfold setUnmapped. cbn [unmappedChildRelationships].
  now apply typeContentsOf_unmapped_NoDup.
Qed.

(** The unmapped set after the describe calls of [completion]: what was
    there, and what the completed calls sent. *)
Lemma settled_unmapped (cfg : IConfig) (x : string) (completion : list nat) :
  forall ps st,
    In x (unmappedChildRelationships
            (snd (fold_left (settleOne describe cfg) completion (ps, st))))
    <-> In x (unmappedChildRelationships st)
        \/ exists i s d,
             In i completion
             /\ nth_error (sobjects cfg) i = Some s
             /\ describe s = Some d
             /\ sendsUnmapped (Some (sobjects cfg)) d x.
Proof.
  induction completion as [|i completion IH]; intros ps st.
  - cbn. split; [tauto|]. intros [H | (i & s & d & [] & _)]. exact H.
  - cbn [fold_left].
    pose proof (settleOne_unmapped cfg x ps st i) as Hstep.
    destruct (settleOne describe cfg (ps, st) i) as [ps1 st1].
    cbn [snd] in Hstep. rewrite IH, Hstep. split.
    + intros [[H | (s & d & H)] | (j & s & d & Hj & H)].
      * tauto.
      * right. exists i, s, d. simpl. tauto.
      * right. exists j, s, d. simpl. tauto.
    + intros [H | (j & s & d & [<- | Hj] & H)].
      * tauto.
      * left. right. exists s, d. exact H.
      * right. exists j, s, d. tauto.
Qed.

Lemma settled_NoDup (cfg : IConfig) (completion : list nat) :
  forall ps st,
    NoDup (unmappedChildRelationships st) ->
    NoDup (unmappedChildRelationships
             (snd (fold_left (settleOne describe cfg) completion (ps, st)))).
Proof.
  induction completion as [|i completion IH]; intros ps st Hst; [exact Hst|].
  cbn [fold_left].
  pose proof (settleOne_NoDup cfg ps st i Hst) as Hstep.
  destruct (settleOne describe cfg (ps, st) i) as [ps1 st1].
  now apply IH.
Qed.

(** When every describe call succeeds, one completed call leaves no
    promise rejected and its own promise settled. *)
Lemma settleOne_promises (cfg : IConfig) (ps : list JS.Promise) (st : State) (i : nat) :
  Forall (fun s => describe s <> None) (sobjects cfg) ->
  Forall (fun p => p <> JS.Rejected) ps ->
  let ps1 := fst (settleOne describe cfg (ps, st) i) in
  Forall (fun p => p <> JS.Rejected) ps1
  /\ length ps1 = length ps
  /\ (forall j,
        j = i \/ (exists p, nth_error ps j = Some p /\ p <> JS.Pending) ->
        j < length ps -> j < length (sobjects cfg) ->
        exists p, nth_error ps1 j = Some p /\ p <> JS.Pending).
Proof.
  intros Hall Hps. cbn zeta. rewrite settleOne_eq.
  destruct (nth_error (sobjects cfg) i) as [s|] eqn:En.
  - assert (Hs : describe s <> None).
    { rewrite Forall_forall in Hall. apply Hall.
      eapply nth_error_In. exact En. }
    destruct (describe s) as [d|]; [|congruence].
    cbn [fst snd]. cbn zeta.
    set (v := fst (typeContentsOf s d (Some (sobjects cfg))
                     (specialChildrenToMap cfg) (unmappedChildRelationships st))).
    split; [|split].
    + apply Forall_forall. intros p Hp.
      apply In_nth_error in Hp. destruct Hp as [k Hk].
      destruct (Nat.eq_dec i k) as [-> | Hik].
      * assert (Hlt : k < length ps).
        { rewrite <- (settleAt_length k (JS.Fulfilled v) ps).
          apply nth_error_Some. congruence. }
        rewrite (settleAt_same _ _ _ Hlt) in Hk.
        injection Hk as <-. discriminate.
      * rewrite (settleAt_other _ _ _ _ Hik) in Hk.
        rewrite Forall_forall in Hps. apply Hps.
        eapply nth_error_In. exact Hk.
    + apply settleAt_length.
    + intros j Hj Hlt _. destruct (Nat.eq_dec i j) as [-> | Hij].
      * rewrite (settleAt_same _ _ _ Hlt).
        eexists. split; [reflexivity | discriminate].
      * rewrite (settleAt_other _ _ _ _ Hij).
        destruct Hj as [-> | Hj]; [congruence | exact Hj].
  - cbn [fst]. split; [exact Hps | split; [reflexivity|]].
    intros j [-> | Hj] _ Hlt; [|exact Hj].
    apply nth_error_None in En. lia.
Qed.

Lemma settled_promises (cfg : IConfig) (completion : list nat) :
  Forall (fun s => describe s <> None) (sobjects cfg) ->
  forall ps st,
    Forall (fun p => p <> JS.Rejected) ps ->
    let r := fold_left (settleOne describe cfg) completion (ps, st) in
    Forall (fun p => p <> JS.Rejected) (fst r)
    /\ forall j,
         In j completion \/ (exists p, nth_error ps j = Some p /\ p <> JS.Pending) ->
         j < length ps -> j < length (sobjects cfg) ->
         exists p, nth_error (fst r) j = Some p /\ p <> JS.Pending.
Proof.
  intros Hall. induction completion as [|i completion IH]; intros ps st Hps.
  - cbn. split; [exact Hps|]. intros j [[] | H] _ _. exact H.
  - cbn [fold_left].
    pose proof (settleOne_promises cfg ps st i Hall Hps) as Hstep.
    destruct (settleOne describe cfg (ps, st) i) as [ps1 st1].
    cbn [fst] in Hstep. cbn zeta in Hstep.
    destruct Hstep as (H1 & H2 & H3).
    destruct (IH ps1 st1 H1) as [I1 I2]. split; [exact I1|].
    intros j Hj Hlt Hn. apply I2; [|lia|exact Hn].
    destruct Hj as [[<- | Hj] | Hj].
    + right. apply H3; auto.
    + now left.
    + right. apply H3; auto.
Qed.

End Batch.

(** ** The batch document *)

Section BatchRun.

Variable describe : string -> option DescribeSObjectResult.
Variable join : string -> string -> string.
Variable readFileAt : string -> ReadResult.
Variable fsReaddir : list (string * string) -> string -> bool.
Variable fsWriteFile : list (string * string) -> string -> string -> bool.

Lemma awaitAll_settled (ps : list JS.Promise) (st : State) :
  Forall (fun p => p <> JS.Rejected) ps ->
  Forall (fun p => p <> JS.Pending) ps ->
  awaitAll ps st = (Ok tt, st).
Proof.
  intros Hr Hp. unfold awaitAll.
  replace (existsb isRejected ps) with false.
  - replace (existsb isPending ps) with false; [reflexivity|].
    symmetry. apply not_true_is_false. intros H.
    apply existsb_exists in H. destruct H as [p [Hin Hp']].
    rewrite Forall_forall in Hp. specialize (Hp p Hin).
    destruct p; simpl in Hp'; congruence.
  - symmetry. apply not_true_is_false. intros H.
    apply existsb_exists in H. destruct H as [p [Hin Hp']].
    rewrite Forall_forall in Hr. specialize (Hr p Hin).
    destruct p; simpl in Hp'; congruence.
Qed.

(** A write that succeeds, followed by the record of its path. *)
Lemma write_and_push (path content : string) (st : State) :
  fsWriteFile (files st) path content = true ->
  (writeFile fsWriteFile path content ;; pushCreated path) st
  = (Ok tt,
     mkState (createdFiles st ++ [path]) (unmappedChildRelationships st)
       (files st ++ [(path, content)]) (stderr st) (log st)
       (trace st ++ [Wrote path])).
Proof.
  intros H. unfold bind, writeFile, pushCreated. rewrite H. reflexivity.
Qed.

(** A write that fails throws and leaves everything as it was. *)
Lemma write_fails (path content : string) (st : State) :
  fsWriteFile (files st) path content = false ->
  (writeFile fsWriteFile path content ;; pushCreated path) st = (Throw, st).
Proof.
  intros H. unfold bind, writeFile. rewrite H. reflexivity.
Qed.

(** When the file system works, the two fixed files are written first and
    the mode is chosen in the state they leave. *)
Lemma generate_eq (flags : OutputFlags) (completion : list nat) (st : State) :
  fsSucceeds fsReaddir fsWriteFile ->
  generate describe join readFileAt fsReaddir fsWriteFile flags completion st
  = match dispatch describe join readFileAt fsWriteFile flags completion
            (afterPreamble join flags st) with
    | (Ok _, st') => (Ok (createdFiles st'), st')
    | (Throw, st') => (Throw, st')
    | (Blocked, st') => (Blocked, st')
    end.
Proof.
  intros [Hd Hw]. unfold generate.
  unfold bind at 1. unfold createBaseSObjectType.
  unfold bind at 1. unfold readdir at 1. rewrite Hd.
  rewrite (write_and_push _ _ st (Hw _ _ _)).
  unfold bind at 1. unfold createSalesforceFieldTypes.
  unfold bind at 1. unfold readdir at 1.
  cbn [createdFiles unmappedChildRelationships files stderr log trace].
  rewrite Hd, write_and_push by apply Hw.
  cbn [createdFiles unmappedChildRelationships files stderr log trace].
  unfold bind at 1. unfold dispatch, afterPreamble. reflexivity.
Qed.

Lemma afterPreamble_files (flags : OutputFlags) (st : State) :
  files (afterPreamble join flags st) = (files st ++ preambleFiles join flags)%list
  /\ createdFiles (afterPreamble join flags st)
     = (createdFiles st ++ map fst (preambleFiles join flags))%list.
Proof.
  unfold afterPreamble, preambleFiles. cbn [files createdFiles map fst].
  now rewrite <- !app_assoc.
Qed.

Lemma generateSObjectsConfig_runs (flags : OutputFlags) (path : string)
    (cfg : IConfig) (completion : list nat) (st : State) :
  (forall written p content, fsWriteFile written p content = true) ->
  config flags = Some path ->
  readFileAt path = Parsed cfg ->
  Forall (fun s => describe s <> None) (sobjects cfg) ->
  isCompletion cfg completion ->
  exists st',
    generateSObjectsConfig describe join readFileAt fsWriteFile flags completion st
    = (Ok tt, st')
    /\ files st'
       = (files st ++ [(join (outputdir flags) "sobjects.ts",
                        batchDocument (length (sobjects cfg))
                          (unmappedChildRelationships st'))])%list
    /\ createdFiles st' = (createdFiles st ++ [join (outputdir flags) "sobjects.ts"])%list
    /\ stderr st' = stderr st
    /\ (NoDup (unmappedChildRelationships st) -> NoDup (unmappedChildRelationships st'))
    /\ (forall x,
          In x (unmappedChildRelationships st')
          <-> In x (unmappedChildRelationships st)
              \/ exists s d,
                   In s (sobjects cfg) /\ describe s = Some d
                   /\ sendsUnmapped (Some (sobjects cfg)) d x).
Proof.
  intros Hw Hc Hr Hall Hperm.
  unfold generateSObjectsConfig, readFile. rewrite Hc, Hr.
  unfold bind at 1. unfold ret at 1.
  unfold bind at 1. rewrite logProcessing_runs.
  unfold bind at 1. unfold uxLog at 1.
  cbn [createdFiles unmappedChildRelationships files stderr log trace].
  unfold bind at 1. unfold settleAll at 1.
  set (st1 := mkState (createdFiles st) (unmappedChildRelationships st) (files st)
                (stderr st) _ _).
  set (ps0 := map (fun _ : string => JS.Pending) (sobjects cfg)).
  pose proof (settled_frame describe cfg completion ps0 st1) as F.
  pose proof (fun x => settled_unmapped describe cfg x completion ps0 st1) as U.
  pose proof (settled_NoDup describe cfg completion ps0 st1) as N.
  assert (Hps0 : Forall (fun p => p <> JS.Rejected) ps0).
  { apply Forall_forall. intros p Hp. apply in_map_iff in Hp.
    destruct Hp as [? [<- _]]. discriminate. }
  pose proof (settled_promises describe cfg completion Hall ps0 st1 Hps0) as P.
  destruct (fold_left (settleOne describe cfg) completion (ps0, st1)) as [ps r].
  cbn [fst snd] in *. cbn zeta in *.
  destruct F as (F1 & F2 & F3 & F4 & F5), P as [P1 P2].
  assert (Hlen : length ps = length (sobjects cfg)).
  { rewrite F5. unfold ps0. apply length_map. }
  assert (Hfull : Forall (fun p => p <> JS.Pending) ps).
  { apply Forall_forall. intros p Hp. apply In_nth_error in Hp.
    destruct Hp as [j Hj].
    assert (Hlt : j < length ps) by (apply nth_error_Some; congruence).
    destruct (P2 j) as [q [Hq Hne]].
    - left. eapply Permutation_in; [symmetry; exact Hperm|].
      apply in_seq. lia.
    - unfold ps0. rewrite length_map. lia.
    - lia.
    - congruence. }
  unfold bind at 1. rewrite (awaitAll_settled ps r P1 Hfull).
  rewrite write_and_push by apply Hw.
  eexists. split; [reflexivity|].
  cbn [createdFiles unmappedChildRelationships files stderr log].
  repeat split.
  - rewrite F2. unfold st1. cbn [files]. do 3 f_equal.
    rewrite appendStubs_section, fold_append, toString_all, Hlen.
    unfold batchDocument. now rewrite !append_assoc.
  - now rewrite F1.
  - now rewrite F3.
  - exact N.
  - intros H. apply U in H. destruct H as [H | (i & s & d & Hi & Hs & Hd)].
    + now left.
    + right. exists s, d. split; [|exact Hd].
      eapply nth_error_In. exact Hs.
  - intros [H | (s & d & Hs & Hd)]; apply U.
    + now left.
    + right. apply In_nth_error in Hs. destruct Hs as [i Hi].
      exists i, s, d. split; [|tauto].
      eapply Permutation_in; [symmetry; exact Hperm|].
      apply in_seq. assert (i < length (sobjects cfg)) by (apply nth_error_Some; congruence).
      lia.
Qed.

(** A run of [generate] in config mode: the two fixed files, then the
    batch document. *)
Lemma generate_batch_runs (flags : OutputFlags) (path : string)
    (cfg : IConfig) (completion : list nat) (st : State) :
  fsSucceeds fsReaddir fsWriteFile ->
  JS.truthy_opt (sobject flags) = false ->
  config flags = Some path ->
  path <> "" ->
  readFileAt path = Parsed cfg ->
  Forall (fun s => describe s <> None) (sobjects cfg) ->
  isCompletion cfg completion ->
  exists st',
    generate describe join readFileAt fsReaddir fsWriteFile flags completion st
    = (Ok (createdFiles st'), st')
    /\ files st'
       = (files st
          ++ [(join (outputdir flags) "sobject.ts", sobject_text);
              (join (outputdir flags) "sobjectFieldTypes.ts", sobjectFieldTypes);
              (join (outputdir flags) "sobjects.ts",
               batchDocument (length (sobjects cfg))
                 (unmappedChildRelationships st'))])%list
    /\ createdFiles st'
       = (createdFiles st
          ++ [join (outputdir flags) "sobject.ts";
              join (outputdir flags) "sobjectFieldTypes.ts";
              join (outputdir flags) "sobjects.ts"])%list
    /\ stderr st' = stderr st
    /\ (NoDup (unmappedChildRelationships st) -> NoDup (unmappedChildRelationships st'))
    /\ (forall x,
          In x (unmappedChildRelationships st')
          <-> In x (unmappedChildRelationships st)
              \/ exists s d,
                   In s (sobjects cfg) /\ describe s = Some d
                   /\ sendsUnmapped (Some (sobjects cfg)) d x).
Proof.
  intros Hfs Hs Hc Hp Hr Hall Hperm.
  rewrite (generate_eq flags completion st Hfs). unfold dispatch.
  rewrite Hs, Hc. cbn [andb JS.truthy_opt].
  replace (JS.truthy path) with true by (symmetry; now apply truthy_true_iff).
  destruct (generateSObjectsConfig_runs flags path cfg completion
              (afterPreamble join flags st) (proj2 Hfs) Hc Hr Hall Hperm)
    as (st' & Hrun & Hf & Hcf & He & Hn & Hu).
  rewrite Hrun. exists st'. split; [reflexivity|].
  destruct (afterPreamble_files flags st) as [A1 A2].
  rewrite A1 in Hf. rewrite A2 in Hcf.
  unfold preambleFiles in Hf, Hcf. cbn [map fst] in Hcf.
  unfold afterPreamble in He, Hn, Hu.
  cbn [createdFiles unmappedChildRelationships files stderr log] in *.
  repeat split; auto.
  - rewrite Hf, <- !app_assoc. reflexivity.
  - rewrite Hcf, <- !app_assoc. reflexivity.
  - apply Hu.
  - apply Hu.
Qed.

Lemma lastFile_app (st : State) (l : list (string * string)) (f : string * string) :
  files st = (l ++ [f])%list -> lastFile st = Some f.
Proof.
  intros H. unfold lastFile. rewrite H, map_app. cbn [map]. apply last_last.
Qed.


End BatchRun.

Lemma sample_fs_succeeds : fsSucceeds sampleReaddir sampleWriteFile.
Proof. split; reflexivity. Qed.


(** ** The allow-list of bare child properties *)

Lemma findIndex_lower (x : string) (l : list string) : (-1 <= JS.findIndex x l)%Z.
Proof.
  induction l as [|f l IH]; simpl; [lia|].
  destruct (String.eqb f x); [lia|].
  destruct (JS.findIndex x l <? 0)%Z eqn:E; lia.
Qed.

Lemma findIndex_found (x : string) (l : list string) :
  (0 <= JS.findIndex x l)%Z <-> In x l.
Proof.
  induction l as [|f l IH]; simpl; [lia|].
  destruct (String.eqb_spec f x) as [-> | Hne].
  - split; [tauto | lia].
  - destruct (JS.findIndex x l <? 0)%Z eqn:E.
    + apply Z.ltb_lt in E. split; [lia|]. intros [H | H]; [congruence|].
      apply IH in H. lia.
    + apply Z.ltb_ge in E. split; [|lia]. intros _. right. now apply IH.
Qed.

(** The first match lies past index 0 exactly when the name is not the
    head of the list but occurs behind it. *)
Lemma findIndex_past_head (x h : string) (t : list string) :
  (0 <? JS.findIndex x (h :: t))%Z = true <-> x <> h /\ In x t.
Proof.
  simpl. destruct (String.eqb_spec h x) as [-> | Hne].
  - split; [discriminate | tauto].
  - pose proof (findIndex_found x t) as F.
    destruct (JS.findIndex x t <? 0)%Z eqn:E.
    + apply Z.ltb_lt in E. split; [discriminate|]. intros [_ H].
      apply F in H. lia.
    + apply Z.ltb_ge in E. split.
      * intros _. split; [congruence | now apply F].
      * intros _. apply Z.ltb_lt. lia.
Qed.

Lemma splice1_cons (i : Z) (h : string) (t : list string) :
  (0 <= i)%Z -> JS.splice1 (i + 1) (h :: t) = h :: JS.splice1 i t.
Proof.
  intros Hi. unfold JS.splice1.
  replace (Z.to_nat (i + 1)) with (S (Z.to_nat i)) by lia. reflexivity.
Qed.

(** Removing the first match takes one occurrence of that name away and
    leaves the other names as they were. *)
Lemma splice1_findIndex_count (x y : string) (l : list string) :
  In x l ->
  count_occ string_dec (JS.splice1 (JS.findIndex x l) l) y
  = count_occ string_dec l y - (if string_dec x y then 1 else 0).
Proof.
  induction l as [|f l IH]; [intros []|].
  intros Hin. cbn [JS.findIndex].
  destruct (String.eqb_spec f x) as [-> | Hne].
  - unfold JS.splice1. cbn [Z.to_nat firstn skipn app count_occ].
    destruct (string_dec x y); lia.
  - assert (Hl : In x l) by (destruct Hin; [congruence | assumption]).
    pose proof (proj2 (findIndex_found x l) Hl) as Hpos.
    replace (JS.findIndex x l <? 0)%Z with false by (symmetry; apply Z.ltb_ge; lia).
    rewrite (splice1_cons _ _ _ Hpos). cbn [count_occ]. rewrite (IH Hl).
    destruct (string_dec f y) as [-> | ?]; [|reflexivity].
    destruct (string_dec x y) as [-> | ?]; [congruence | lia].
Qed.

Lemma splice1_findIndex_head (x h : string) (t : list string) :
  x <> h -> In x t ->
  JS.splice1 (JS.findIndex x (h :: t)) (h :: t)
  = h :: JS.splice1 (JS.findIndex x t) t.
Proof.
  intros Hne Hin. cbn [JS.findIndex].
  destruct (String.eqb_spec h x) as [-> | _]; [congruence|].
  pose proof (proj2 (findIndex_found x t) Hin) as Hpos.
  replace (JS.findIndex x t <? 0)%Z with false by (symmetry; apply Z.ltb_ge; lia).
  now apply splice1_cons.
Qed.

(** Over known names that are not empty, the generator's test is
    membership in the known set. *)
Lemma inList_isKnown (known : list string) (x : string) :
  ~ In "" known -> inList (Some known) x = isKnown known x.
Proof.
  intros Hne. destruct (string_dec x "") as [-> | Hx].
  - rewrite inList_unknown by exact Hne.
    symmetry. apply not_true_is_false. intros H. now apply isKnown_In in H.
  - now apply inList_known.
Qed.

(** A child relationship changes the clone only when it is bare and its
    entity is matched past index 0; it then also emits the bare property. *)
Lemma childStep_bare (known : list string) (st : BlockState)
    (child : ChildRelationship.t) :
  ~ In "" known ->
  isBare known child = true ->
  let c := ChildRelationship.childSObject child in
  let index := JS.findIndex c (specialChildrenToMapClone st) in
  childStep (Some known) st child
  = if (0 <? index)%Z
    then mkBlock (typeContents st ++ bareLine c)
           (JS.splice1 index (specialChildrenToMapClone st)) (unmapped st)
    else st.
Proof.
  intros Hne Hbare. unfold isBare, isNamed in Hbare.
  apply andb_prop in Hbare. destruct Hbare as [Hb Hk].
  apply andb_prop in Hb. destruct Hb as [Hn Hj].
  apply negb_true_iff in Hn. apply Nat.eqb_eq in Hj.
  cbn zeta. unfold childStep. rewrite (inList_isKnown _ _ Hne), Hk, Hn, Hj.
  cbn [Nat.ltb Nat.leb]. reflexivity.
Qed.

Lemma childStep_not_bare (known : list string) (st : BlockState)
    (child : ChildRelationship.t) :
  ~ In "" known ->
  isBare known child = false ->
  specialChildrenToMapClone (childStep (Some known) st child)
  = specialChildrenToMapClone st.
Proof.
  intros Hne Hbare. unfold isBare, isNamed in Hbare.
  unfold childStep. rewrite (inList_isKnown _ _ Hne).
  destruct (isKnown known (ChildRelationship.childSObject child));
    destruct (JS.truthy_opt (ChildRelationship.relationshipName child));
    try reflexivity.
  destruct (length (ChildRelationship.junctionReferenceTo child)) eqn:E;
    [discriminate Hbare | reflexivity].
Qed.

Lemma bareBefore_snoc (known : list string) (x : string)
    (pre : list ChildRelationship.t) (child : ChildRelationship.t) :
  bareBefore known x (pre ++ [child])
  = bareBefore known x pre
    + (if isBare known child && String.eqb (ChildRelationship.childSObject child) x
       then 1 else 0).
Proof.
  unfold bareBefore. rewrite filter_app, length_app. cbn [filter].
  destruct (isBare known child && String.eqb (ChildRelationship.childSObject child) x);
    reflexivity.
Qed.

(** The clone in front of a child relationship: the head of the caller's
    list is still there, and behind it every other name has lost one
    occurrence for each earlier bare relationship to it. *)
Lemma clone_before (known : list string) (tc : string) (um l : list string)
    (pre : list ChildRelationship.t) :
  ~ In "" known ->
  let st := fold_left (childStep (Some known)) pre (mkBlock tc l um) in
  match l with
  | [] => specialChildrenToMapClone st = []
  | h :: t =>
      exists t',
        specialChildrenToMapClone st = h :: t'
        /\ forall x, x <> h ->
             count_occ string_dec t' x
             = count_occ string_dec t x - bareBefore known x pre
  end.
Proof.
  intros Hne. cbn zeta. induction pre as [|child pre IH] using rev_ind.
  - destruct l as [|h t]; [reflexivity|].
    exists t. split; [reflexivity|]. intros x _. cbn. lia.
  - rewrite fold_left_app. cbn [fold_left].
    set (st := fold_left (childStep (Some known)) pre (mkBlock tc l um)) in *.
    destruct (isBare known child) eqn:Ebare.
    + rewrite (childStep_bare known st child Hne Ebare). cbn zeta.
      destruct l as [|h t].
      * rewrite IH. cbn. exact IH.
      * destruct IH as (t' & Hcl & Hcount). rewrite Hcl.
        destruct (0 <? JS.findIndex (ChildRelationship.childSObject child) (h :: t'))%Z
          eqn:Eidx.
        -- apply findIndex_past_head in Eidx. destruct Eidx as [Hch Hin].
           cbn [specialChildrenToMapClone].
           rewrite (splice1_findIndex_head _ _ _ Hch Hin).
           eexists. split; [reflexivity|]. intros x Hx.
           rewrite (splice1_findIndex_count _ x _ Hin), (Hcount x Hx).
           rewrite bareBefore_snoc, Ebare. cbn [andb].
           destruct (string_dec (ChildRelationship.childSObject child) x) as [-> | Hcx].
           ++ rewrite String.eqb_refl. lia.
           ++ apply String.eqb_neq in Hcx. rewrite Hcx. lia.
        -- exists t'. split; [exact Hcl|]. intros x Hx.
           rewrite (Hcount x Hx), bareBefore_snoc, Ebare. cbn [andb].
           destruct (String.eqb_spec (ChildRelationship.childSObject child) x)
             as [Hcx | Hcx]; [|lia].
           assert (Hnot : ~ In x t').
           { intros Hin. apply not_true_iff_false in Eidx. apply Eidx.
             apply findIndex_past_head. rewrite Hcx. tauto. }
           apply (count_occ_not_In string_dec) in Hnot.
           rewrite (Hcount x Hx) in Hnot. lia.
    + rewrite (childStep_not_bare known st child Hne Ebare).
      destruct l as [|h t]; [exact IH|].
      destruct IH as (t' & Hcl & Hcount). exists t'. split; [exact Hcl|].
      intros x Hx. rewrite (Hcount x Hx), bareBefore_snoc, Ebare. cbn [andb]. lia.
Qed.

(** C4, amended: a child relationship without a name and without junction
    targets whose child entity [c] is known (known names not being empty)
    emits the bare property [c: c] exactly when the first occurrence of [c]
    in the caller's allow-list is at an index greater than 0 and the list
    holds more occurrences of [c] than there are earlier such relationships
    to [c] in the same entity; otherwise, and so for a match at index 0, it
    emits nothing. *)
Theorem bare_child_property
    (known : list string) (special : option (list string))
    (pre : list ChildRelationship.t) (child : ChildRelationship.t)
    (tc : string) (um : list string) :
  ~ In "" known ->
  isBare known child = true ->
  let c := ChildRelationship.childSObject child in
  let allow := match special with Some l => l | None => [] end in
  let before := beforeChild known special pre tc um in
  typeContents (childStep (Some known) before child)
  = typeContents before
    ++ (if (0 <? JS.findIndex c allow)%Z
           && (bareBefore known c pre <? count_occ string_dec allow c)%nat
        then bareLine c else "").
Proof.
  intros Hne Hbare. cbn zeta. unfold beforeChild.
  set (l := match special with Some l => l | None => [] end).
  set (c := ChildRelationship.childSObject child).
  pose proof (clone_before known tc um l pre Hne) as Hinv. cbn zeta in Hinv.
  set (st := fold_left (childStep (Some known)) pre (mkBlock tc l um)) in *.
  rewrite (childStep_bare known st child Hne Hbare). cbn zeta. fold c.
  assert (Hcond : (0 <? JS.findIndex c (specialChildrenToMapClone st))%Z
                  = (0 <? JS.findIndex c l)%Z
                    && (bareBefore known c pre <? count_occ string_dec l c)%nat).
  { destruct l as [|h t].
    - rewrite Hinv. reflexivity.
    - destruct Hinv as (t' & Hcl & Hcount). rewrite Hcl.
      apply eq_true_iff_eq. rewrite andb_true_iff, !findIndex_past_head, Nat.ltb_lt.
      split.
      + intros [Hch Hin]. apply (count_occ_In string_dec) in Hin.
        rewrite (Hcount c Hch) in Hin.
        assert (Hc : count_occ string_dec (h :: t) c = count_occ string_dec t c)
          by (apply count_occ_cons_neq; congruence).
        rewrite Hc. repeat split; [exact Hch | | lia].
        apply (count_occ_In string_dec). lia.
      + intros [[Hch Hin] Hlt]. split; [exact Hch|].
        apply (count_occ_In string_dec). rewrite (Hcount c Hch).
        rewrite count_occ_cons_neq in Hlt by congruence. lia. }
  rewrite <- Hcond.
  destruct (0 <? JS.findIndex c (specialChildrenToMapClone st))%Z;
    [reflexivity | now rewrite append_nil_r].
Qed.

Lemma bare_child_property_witness :
  typeContents
    (childStep (Some ["Account"; "Contact"])
       (beforeChild ["Account"; "Contact"] (Some ["Link"; "Contact"]) [casesChild]
          "" [])
       bareContact)
  = typeContents
      (beforeChild ["Account"; "Contact"] (Some ["Link"; "Contact"]) [casesChild]
         "" [])
    ++ bareLine "Contact".
Proof.
  refine (bare_child_property ["Account"; "Contact"] (Some ["Link"; "Contact"])
            [casesChild] bareContact "" [] _ _).
  - simpl. intros H. repeat (destruct H as [H | H]; [discriminate H|]). exact H.
  - reflexivity.
Defined.

(** C4 as first stated does not hold: of two bare relationships of one
    entity to the same child entity, listed once at index 1 of the
    allow-list, the second emits nothing. *)
Lemma bare_child_second_silent :
  ~ (forall (known allow : list string) (pre : list ChildRelationship.t)
            (child : ChildRelationship.t) (tc : string) (um : list string),
        isBare known child = true ->
        let c := ChildRelationship.childSObject child in
        let before := beforeChild known (Some allow) pre tc um in
        typeContents (childStep (Some known) before child)
        = typeContents before ++ bareLine c
        <-> exists i, 0 < i /\ nth_error allow i = Some c).
Proof.
  intros H.
  specialize (H ["Account"; "Contact"] ["Link"; "Contact"] [bareContact]
                bareContact "" [] eq_refl).
  cbn zeta in H. destruct H as [_ H].
  assert (Hocc : exists i, 0 < i /\ nth_error ["Link"; "Contact"] i
                                   = Some (ChildRelationship.childSObject bareContact))
    by (exists 1; split; [lia | reflexivity]).
  specialize (H Hocc). vm_compute in H. discriminate H.
Qed.

(** ** Single-entity mode *)

Lemma refTypeName_absent (referenceTo : list string) :
  refTypeName None referenceTo = None.
Proof.
  unfold refTypeName. induction referenceTo as [|r l IH]; [reflexivity|].
  cbn [fold_left]. exact IH.
Qed.

Lemma fieldContents_absent (field : Field.t) :
  fieldContents None field = singleFieldLine field.
Proof.
  unfold fieldContents, singleFieldLine.
  destruct (String.eqb (Field.name field) "Id"); [reflexivity|].
  rewrite refTypeName_absent. cbn [JS.truthy_opt].
  destruct (String.eqb (Field.type field) "reference");
    now rewrite !append_assoc, ?append_nil_r.
Qed.

Lemma childStep_absent (st : BlockState) (child : ChildRelationship.t) :
  childStep None st child
  = mkBlock (typeContents st ++ singleChildLine child)
      (specialChildrenToMapClone st)
      (if isNamed child
       then JS.set_add (ChildRelationship.childSObject child) (unmapped st)
       else unmapped st).
Proof.
  unfold childStep, singleChildLine, isNamed. cbn [inList].
  destruct (JS.truthy_opt (ChildRelationship.relationshipName child));
    [reflexivity|].
  rewrite append_nil_r. now destruct st.
Qed.

Lemma children_absent (children : list ChildRelationship.t) :
  forall st,
    typeContents (fold_left (childStep None) children st)
    = typeContents st ++ String.concat "" (map singleChildLine children).
Proof.
  induction children as [|c children IH]; intros st.
  - simpl. now rewrite append_nil_r.
  - cbn [fold_left map]. rewrite IH, childStep_absent, concat_empty_cons.
    cbn [typeContents]. apply append_assoc.
Qed.

(** The block of an entity when no list of entities is passed. *)
Lemma typeContentsOf_absent (objectName : string) (d : DescribeSObjectResult)
    (special : option (list string)) (um : list string) :
  fst (typeContentsOf objectName d None special um)
  = blockOpening objectName
    ++ String.concat "" (map singleFieldLine (fields d))
    ++ String.concat "" (map singleChildLine (childRelationships d))
    ++ JS.nl ++ "};" ++ JS.nl.
Proof.
  unfold typeContentsOf. cbn [fst]. rewrite children_absent. cbn [typeContents].
  rewrite (fold_append (fieldContents None)).
  rewrite (map_ext _ _ fieldContents_absent).
  unfold blockOpening. now rewrite !append_assoc.
Qed.

Section Single.

Variable describe : string -> option DescribeSObjectResult.
Variable join : string -> string -> string.
Variable fsWriteFile : list (string * string) -> string -> string -> bool.

Lemma generateSObject_runs (flags : OutputFlags) (objectName : string)
    (d : DescribeSObjectResult) (st : State) :
  writesSucceed fsWriteFile ->
  sobject flags = Some objectName ->
  describe objectName = Some d ->
  generateSObject describe join fsWriteFile flags st
  = (Ok tt,
     let r := typeContentsOf objectName d None None (unmappedChildRelationships st) in
     let filePath := join (outputdir flags) (sobjectFileName objectName) in
     mkState (createdFiles st ++ [filePath]) (snd r)
       (files st ++ [(filePath, fst r)]) (stderr st) (log st)
       (trace st ++ [Wrote filePath])).
Proof.
  intros Hw Hs Hd. unfold generateSObject. rewrite Hs.
  unfold bind at 1. unfold generateSObjectTypeContents. rewrite Hd.
  cbn zeta. rewrite write_and_push by apply Hw. reflexivity.
Qed.

(** C6, amended: in single-entity mode the written block holds, for each
    field other than [Id], its scalar property only (no relationship
    property for a reference field), and nothing for a child relationship
    without a name; a child relationship with a name still contributes its
    child-records property. *)
Theorem single_mode_block (flags : OutputFlags) (objectName : string)
    (d : DescribeSObjectResult) (st : State) :
  writesSucceed fsWriteFile ->
  sobject flags = Some objectName ->
  describe objectName = Some d ->
  exists st',
    generateSObject describe join fsWriteFile flags st = (Ok tt, st')
    /\ lastFile st'
       = Some (join (outputdir flags) (sobjectFileName objectName),
               blockOpening objectName
               ++ String.concat "" (map singleFieldLine (fields d))
               ++ String.concat "" (map singleChildLine (childRelationships d))
               ++ JS.nl ++ "};" ++ JS.nl).
Proof.
  intros Hw Hs Hd. eexists.
  split; [apply (generateSObject_runs flags objectName d st Hw Hs Hd)|].
  cbn zeta. eapply lastFile_app. cbn [files].
  now rewrite typeContentsOf_absent.
Qed.

End Single.

Lemma sample_writes_succeed : writesSucceed sampleWriteFile.
Proof. intros written path content. reflexivity. Qed.

Lemma single_mode_block_witness :
  exists st',
    generateSObject sampleDescribe sampleJoin sampleWriteFile singleFlags
      (newGenerator [])
    = (Ok tt, st')
    /\ lastFile st'
       = Some ("out/contact.ts",
               blockOpening "Contact"
               ++ String.concat "" (map singleFieldLine (fields sampleContact))
               ++ String.concat "" (map singleChildLine (childRelationships sampleContact))
               ++ JS.nl ++ "};" ++ JS.nl).
Proof.
  refine (single_mode_block sampleDescribe sampleJoin sampleWriteFile singleFlags
            "Contact" sampleContact (newGenerator []) _ _ _).
  - exact sample_writes_succeed.
  - reflexivity.
  - reflexivity.
Defined.

(** C6 as first stated does not hold: without a list of entities a child
    relationship with a name still emits its property. *)
Lemma single_mode_named_child_emits :
  ~ (forall (child : ChildRelationship.t) (st : BlockState),
        typeContents (childStep None st child) = typeContents st).
Proof.
  intros H. specialize (H casesChild (mkBlock "" [] [])).
  vm_compute in H. discriminate H.
Qed.

(** C5, at a failing input: single-entity mode on an entity with named
    child relationships writes a file that refers to the types [Case] and
    [Asset]; the file neither declares them nor has a stub section, though
    both names were collected in the unmapped set. *)
Theorem single_mode_dangling_types :
  exists st',
    generate sampleDescribe sampleJoin sampleReadFile sampleReaddir sampleWriteFile
      singleFlags [] (newGenerator [])
    = (Ok ["out/sobject.ts"; "out/sobjectFieldTypes.ts"; "out/contact.ts"], st')
    /\ files st'
       = [("out/sobject.ts", sobject_text);
          ("out/sobjectFieldTypes.ts", sobjectFieldTypes);
          ("out/contact.ts",
           JS.nl ++ JS.nl
           ++ "export interface Contact extends SObjectAttribute<'Contact'> {" ++ JS.nl
           ++ "  AccountId: ID;" ++ JS.nl
           ++ "  Cases: ChildRecords<Case, 'Case'>;" ++ JS.nl
           ++ "  Assets: ChildRecords<Asset, 'Asset'>;" ++ JS.nl
           ++ "};" ++ JS.nl)]
    /\ unmappedChildRelationships st' = ["Case"; "Asset"].
Proof.
  exists (snd (generate sampleDescribe sampleJoin sampleReadFile sampleReaddir
                 sampleWriteFile singleFlags [] (newGenerator []))).
  repeat split; vm_compute; reflexivity.
Qed.

(** ** Completion order *)

Section Completion.

Variable describe : string -> option DescribeSObjectResult.
Variable join : string -> string -> string.
Variable readFileAt : string -> ReadResult.
Variable fsReaddir : list (string * string) -> string -> bool.
Variable fsWriteFile : list (string * string) -> string -> string -> bool.

(** Two batch runs that differ only in the order in which the describe
    calls complete write the same files, report the same created files and
    the same errors. *)
Lemma batch_completion_independent (flags : OutputFlags) (path : string)
    (cfg : IConfig) (completion1 completion2 : list nat) (createdFiles0 : list string) :
  fsSucceeds fsReaddir fsWriteFile ->
  JS.truthy_opt (sobject flags) = false ->
  config flags = Some path ->
  path <> "" ->
  readFileAt path = Parsed cfg ->
  Forall (fun s => describe s <> None) (sobjects cfg) ->
  isCompletion cfg completion1 ->
  isCompletion cfg completion2 ->
  exists st1 st2,
    generate describe join readFileAt fsReaddir fsWriteFile flags completion1
      (newGenerator createdFiles0)
    = (Ok (createdFiles st1), st1)
    /\ generate describe join readFileAt fsReaddir fsWriteFile flags completion2
         (newGenerator createdFiles0)
       = (Ok (createdFiles st2), st2)
    /\ files st1 = files st2
    /\ createdFiles st1 = createdFiles st2
    /\ stderr st1 = stderr st2.
Proof.
  intros Hfs Hs Hc Hp Hr Hall H1 H2.
  destruct (generate_batch_runs describe join readFileAt fsReaddir fsWriteFile
              flags path cfg completion1
              (newGenerator createdFiles0) Hfs Hs Hc Hp Hr Hall H1)
    as (st1 & R1 & F1 & C1 & E1 & N1 & U1).
  destruct (generate_batch_runs describe join readFileAt fsReaddir fsWriteFile
              flags path cfg completion2
              (newGenerator createdFiles0) Hfs Hs Hc Hp Hr Hall H2)
    as (st2 & R2 & F2 & C2 & E2 & N2 & U2).
  exists st1, st2.
  assert (Hperm : Permutation (unmappedChildRelationships st1)
                    (unmappedChildRelationships st2)).
  { apply NoDup_Permutation.
    - apply N1. constructor.
    - apply N2. constructor.
    - intros x. rewrite U1, U2. reflexivity. }
  repeat split; try assumption; try congruence.
  rewrite F1, F2. unfold batchDocument. now rewrite (sort_of_perm _ _ Hperm).
Qed.

End Completion.

(** C7, at a failing input: the batch document of two entities holds,
    between the file header and the stub section, the text
    [[object Promise]] twice where the two entity blocks should stand; the
    header is not followed by the block of the first entity. *)
Theorem batch_document_promise_objects :
  exists st',
    generate sampleDescribe sampleJoin sampleReadFile sampleReaddir sampleWriteFile
      configFlags [1; 0] (newGenerator [])
    = (Ok ["out/sobject.ts"; "out/sobjectFieldTypes.ts"; "out/sobjects.ts"], st')
    /\ lastFile st'
       = Some ("out/sobjects.ts",
               generateFileHeader
               ++ "[object Promise][object Promise]" ++ JS.nl
               ++ "// unmapped types:" ++ JS.nl
               ++ "type Asset = any; " ++ JS.nl
               ++ "type Case = any; ")
    /\ forall content,
         lastFile st' = Some ("out/sobjects.ts", content) ->
         String.prefix (generateFileHeader ++ blockOpening "Account") content = false.
Proof.
  exists (snd (generate sampleDescribe sampleJoin sampleReadFile sampleReaddir
                 sampleWriteFile configFlags [1; 0] (newGenerator []))).
  split; [vm_compute; reflexivity|]. split; [vm_compute; reflexivity|].
  intros content H. vm_compute in H. injection H as <-. vm_compute. reflexivity.
Qed.

(** ** The mode flags *)

Section Modes.

Variable describe : string -> option DescribeSObjectResult.
Variable join : string -> string -> string.
Variable readFileAt : string -> ReadResult.
Variable fsReaddir : list (string * string) -> string -> bool.
Variable fsWriteFile : list (string * string) -> string -> string -> bool.


End Modes.


(** ** The file of single-entity mode *)

(** C9, at a failing input: for [My_Custom_Object__c] the file is named
    [mycustom_object.ts]; only the first underscore left after the removal
    of [__c] is stripped. *)
Theorem sobjectFileName_keeps_underscore :
  sobjectFileName "My_Custom_Object__c" = "mycustom_object.ts"
  /\ sobjectFileName "My_Custom_Object__c" <> "mycustomobject.ts"
  /\ sobjectFileName "A__cB__c" = "ab_c.ts".
Proof.
  repeat split. discriminate.
Qed.

Lemma prefix_append (a b : string) : String.prefix a (a ++ b) = true.
Proof.
  induction a as [|x a IH]; simpl; [now destruct b|].
  destruct (ascii_dec x x); [exact IH | congruence].
Qed.

Section SingleFile.

Variable describe : string -> option DescribeSObjectResult.
Variable join : string -> string -> string.
Variable readFileAt : string -> ReadResult.
Variable fsReaddir : list (string * string) -> string -> bool.
Variable fsWriteFile : list (string * string) -> string -> string -> bool.

(** C10, amended: in single-entity mode the file written holds the
    entity's block and nothing else, and does not begin with the file
    header; in batch mode the document that a run of [generate] writes
    begins with the file header. *)
Theorem single_mode_file_is_block (flags : OutputFlags) (objectName : string)
    (d : DescribeSObjectResult) (st : State)
    (batchFlags : OutputFlags) (path : string) (cfg : IConfig)
    (completion : list nat) (batchSt : State) :
  fsSucceeds fsReaddir fsWriteFile ->
  sobject flags = Some objectName ->
  describe objectName = Some d ->
  JS.truthy_opt (sobject batchFlags) = false ->
  config batchFlags = Some path ->
  path <> "" ->
  readFileAt path = Parsed cfg ->
  Forall (fun s => describe s <> None) (sobjects cfg) ->
  isCompletion cfg completion ->
  (exists st',
      generateSObject describe join fsWriteFile flags st = (Ok tt, st')
      /\ files st'
         = (files st
            ++ [(join (outputdir flags) (sobjectFileName objectName),
                 fst (typeContentsOf objectName d None None
                        (unmappedChildRelationships st)))])%list
      /\ generateSObjectTypeContents describe objectName None None st
         = (Ok (fst (typeContentsOf objectName d None None
                       (unmappedChildRelationships st))),
            setUnmapped (unmappedChildRelationships st') st)
      /\ String.prefix generateFileHeader
           (fst (typeContentsOf objectName d None None
                   (unmappedChildRelationships st))) = false)
  /\ (exists st' document,
        generate describe join readFileAt fsReaddir fsWriteFile batchFlags completion
          batchSt
        = (Ok (createdFiles st'), st')
        /\ lastFile st'
           = Some (join (outputdir batchFlags) "sobjects.ts", document)
        /\ String.prefix generateFileHeader document = true).
Proof.
  intros Hfs Hs Hd Hbs Hbc Hp Hr Hall Hperm. split.
  - eexists.
    split; [apply (generateSObject_runs describe join fsWriteFile flags objectName d st
                     (proj2 Hfs) Hs Hd)|].
    cbn zeta. cbn [files unmappedChildRelationships]. split; [reflexivity|]. split.
    + unfold generateSObjectTypeContents. now rewrite Hd.
    + rewrite typeContentsOf_absent. reflexivity.
  - destruct (generate_batch_runs describe join readFileAt fsReaddir fsWriteFile
                batchFlags path cfg completion batchSt Hfs Hbs Hbc Hp Hr Hall Hperm)
      as (st' & Hrun & Hf & _).
    exists st'. eexists. split; [exact Hrun|]. split.
    + eapply lastFile_app. rewrite Hf.
      change [(join (outputdir batchFlags) "sobject.ts", sobject_text);
              (join (outputdir batchFlags) "sobjectFieldTypes.ts", sobjectFieldTypes);
              (join (outputdir batchFlags) "sobjects.ts",
               batchDocument (length (sobjects cfg)) (unmappedChildRelationships st'))]
        with ([(join (outputdir batchFlags) "sobject.ts", sobject_text);
               (join (outputdir batchFlags) "sobjectFieldTypes.ts", sobjectFieldTypes)]
              ++ [(join (outputdir batchFlags) "sobjects.ts",
                   batchDocument (length (sobjects cfg))
                     (unmappedChildRelationships st'))])%list.
      rewrite app_assoc. reflexivity.
    + unfold batchDocument. apply prefix_append.
Qed.

End SingleFile.

Lemma single_mode_file_is_block_witness :
  (exists st',
      generateSObject sampleDescribe sampleJoin sampleWriteFile singleFlags
        (newGenerator [])
      = (Ok tt, st')
      /\ files st'
         = [("out/contact.ts", fst (typeContentsOf "Contact" sampleContact None None []))])
  /\ (exists st' document,
        generate sampleDescribe sampleJoin sampleReadFile sampleReaddir sampleWriteFile
          configFlags [1; 0] (newGenerator [])
        = (Ok (createdFiles st'), st')
        /\ lastFile st' = Some ("out/sobjects.ts", document)
        /\ String.prefix generateFileHeader document = true).
Proof.
  destruct (single_mode_file_is_block sampleDescribe sampleJoin sampleReadFile
              sampleReaddir sampleWriteFile singleFlags "Contact" sampleContact
              (newGenerator []) configFlags "config.json" sampleConfig [1; 0]
              (newGenerator []))
    as [(st' & Hrun & Hfiles & _) Hbatch].
  - exact sample_fs_succeeds.
  - reflexivity.
  - reflexivity.
  - reflexivity.
  - reflexivity.
  - discriminate.
  - reflexivity.
  - repeat constructor; discriminate.
  - apply perm_swap.
  - split; [|exact Hbatch].
    exists st'. split; [exact Hrun | exact Hfiles].
Defined.

(** C10 as first stated does not hold: the batch document of two entities
    does not hold the block of the first entity behind the file header. *)
Lemma batch_header_not_before_blocks :
  ~ (exists st' rest,
        generate sampleDescribe sampleJoin sampleReadFile sampleReaddir sampleWriteFile
          configFlags [1; 0] (newGenerator [])
        = (Ok (createdFiles st'), st')
        /\ lastFile st'
           = Some ("out/sobjects.ts",
                   generateFileHeader
                   ++ fst (typeContentsOf "Account" sampleAccount
                             (Some (sobjects sampleConfig))
                             (specialChildrenToMap sampleConfig) [])
                   ++ rest)).
Proof.
  intros (st' & rest & Hrun & Hlast).
  apply (f_equal snd) in Hrun. cbn [snd] in Hrun. subst st'.
  vm_compute in Hlast. discriminate Hlast.
Qed.

(** ** The layout of a block *)

(** What a child relationship appends and what it does to the allow-list
    depend on the allow-list alone, not on the text or the unmapped set. *)
Lemma childStep_frame (sObjects : option (list string)) (tc : string)
    (cl um : list string) (child : ChildRelationship.t) :
  childStep sObjects (mkBlock tc cl um) child
  = mkBlock
      (tc ++ typeContents (childStep sObjects (mkBlock "" cl []) child))
      (specialChildrenToMapClone (childStep sObjects (mkBlock "" cl []) child))
      (unmapped (childStep sObjects (mkBlock tc cl um) child)).
Proof.
  unfold childStep. cbn [typeContents specialChildrenToMapClone unmapped].
  destruct (inList sObjects (ChildRelationship.childSObject child)).
  - destruct (JS.truthy_opt (ChildRelationship.relationshipName child));
      [reflexivity|].
    destruct (0 <? length (ChildRelationship.junctionReferenceTo child))%nat.
    + cbn [typeContents specialChildrenToMapClone unmapped].
      now rewrite !fold_append.
    + destruct (0 <? JS.findIndex (ChildRelationship.childSObject child) cl)%Z;
        cbn [typeContents specialChildrenToMapClone unmapped];
        [reflexivity | now rewrite append_nil_r].
  - destruct (JS.truthy_opt (ChildRelationship.relationshipName child));
      cbn [typeContents specialChildrenToMapClone unmapped];
      [reflexivity | now rewrite append_nil_r].
Qed.

Lemma children_text (sObjects : option (list string))
    (children : list ChildRelationship.t) :
  forall tc cl um,
    typeContents (fold_left (childStep sObjects) children (mkBlock tc cl um))
    = tc ++ childrenText sObjects cl children.
Proof.
  unfold childrenText.
  induction children as [|c children IH]; intros tc cl um.
  - cbn. now rewrite append_nil_r.
  - cbn [fold_left].
    rewrite (childStep_frame sObjects tc cl um c), IH.
    destruct (childStep sObjects (mkBlock "" cl []) c) as [t0 c0 u0].
    cbn [typeContents specialChildrenToMapClone].
    rewrite (IH t0 c0 u0). apply append_assoc.
Qed.

(** The unmapped set a list of child relationships leaves depends on the
    set it starts from alone. *)
Lemma children_unmapped_frame (sObjects : option (list string))
    (children : list ChildRelationship.t) :
  forall st1 st2,
    unmapped st1 = unmapped st2 ->
    unmapped (fold_left (childStep sObjects) children st1)
    = unmapped (fold_left (childStep sObjects) children st2).
Proof.
  induction children as [|c children IH]; intros st1 st2 H; [exact H|].
  cbn [fold_left]. apply IH. rewrite !childStep_unmapped. now rewrite H.
Qed.

Lemma typeContentsOf_layout (objectName : string) (d : DescribeSObjectResult)
    (sObjects special : option (list string)) (um : list string) :
  fst (typeContentsOf objectName d sObjects special um)
  = blockOpening objectName
    ++ String.concat "" (map (fieldContents sObjects) (fields d))
    ++ childrenText sObjects (allowList special) (childRelationships d)
    ++ JS.nl ++ "};" ++ JS.nl.
Proof.
  unfold typeContentsOf. cbn [fst]. rewrite children_text, fold_append.
  unfold blockOpening, allowList. now rewrite !append_assoc.
Qed.

(** X1: a block is its opening line, the contributions of the fields in
    the order of the describe result, the contributions of the child
    relationships in their order, and the closing line; its text is the
    same whatever unmapped set the call starts from. *)
Theorem block_layout (objectName : string) (d : DescribeSObjectResult)
    (sObjects special : option (list string)) (um : list string) :
  fst (typeContentsOf objectName d sObjects special um)
  = blockOpening objectName
    ++ String.concat "" (map (fieldContents sObjects) (fields d))
    ++ childrenText sObjects (allowList special) (childRelationships d)
    ++ JS.nl ++ "};" ++ JS.nl
  /\ forall um',
       fst (typeContentsOf objectName d sObjects special um')
       = fst (typeContentsOf objectName d sObjects special um).
Proof.
  split; [apply typeContentsOf_layout|].
  intros um'. now rewrite !typeContentsOf_layout.
Qed.

Lemma concat_skip_empty {A : Type} (f : A -> string) (keep : A -> bool)
    (l : list A) :
  (forall x, keep x = false -> f x = "") ->
  String.concat "" (map f (filter keep l)) = String.concat "" (map f l).
Proof.
  intros H. induction l as [|x l IH]; [reflexivity|].
  cbn [filter map]. destruct (keep x) eqn:E.
  - cbn [map]. now rewrite !concat_empty_cons, IH.
  - rewrite concat_empty_cons, (H x E). exact IH.
Qed.

(** X3: the [Id] fields of a describe result leave no trace: the block and
    the unmapped set are those of the describe result without them. *)
Theorem id_fields_skipped (objectName : string) (d : DescribeSObjectResult)
    (sObjects special : option (list string)) (um : list string) :
  typeContentsOf objectName (withoutId d) sObjects special um
  = typeContentsOf objectName d sObjects special um.
Proof.
  rewrite (surjective_pairing (typeContentsOf objectName (withoutId d) _ _ _)).
  rewrite (surjective_pairing (typeContentsOf objectName d _ _ _)).
  f_equal.
  - rewrite !typeContentsOf_layout. unfold withoutId. cbn [fields childRelationships].
    rewrite concat_skip_empty; [reflexivity|].
    intros field H. apply negb_false_iff in H.
    unfold fieldContents. now rewrite H.
  - unfold typeContentsOf, withoutId. cbn [snd fields childRelationships].
    now apply children_unmapped_frame.
Qed.

(** X6: a child relationship without a name whose child entity is found in
    the list and that has junction targets contributes one child-records
    property per junction target, in their order and indented by one
    space; it leaves the allow-list and the unmapped set alone. *)
Theorem junction_child_properties (sObjects : option (list string))
    (st : BlockState) (child : ChildRelationship.t) :
  inList sObjects (ChildRelationship.childSObject child) = true ->
  isNamed child = false ->
  ChildRelationship.junctionReferenceTo child <> [] ->
  childStep sObjects st child
  = mkBlock
      (typeContents st
       ++ String.concat ""
            (map (fun j => JS.nl ++ " " ++ j ++ ": ChildRecords<"
                           ++ ChildRelationship.childSObject child ++ ", '"
                           ++ ChildRelationship.childSObject child ++ "'>;")
               (ChildRelationship.junctionReferenceTo child)))
      (specialChildrenToMapClone st) (unmapped st).
Proof.
  intros Hin Hn Hj. unfold isNamed in Hn. unfold childStep.
  rewrite Hin, Hn.
  destruct (ChildRelationship.junctionReferenceTo child) as [|j js] eqn:E;
    [congruence|].
  cbn [length Nat.ltb Nat.leb]. now rewrite fold_append.
Qed.

Lemma junction_child_properties_witness :
  childStep (Some ["Account"; "Link"]) (mkBlock "" ["Link"] []) linkChild
  = mkBlock
      (JS.nl ++ " A: ChildRecords<Link, 'Link'>;"
       ++ JS.nl ++ " B: ChildRecords<Link, 'Link'>;")
      ["Link"] [].
Proof.
  refine (junction_child_properties (Some ["Account"; "Link"])
            (mkBlock "" ["Link"] []) linkChild _ _ _).
  - reflexivity.
  - reflexivity.
  - discriminate.
Defined.

(** ** Field lines *)

(** X4: for a field other than [Id], the calculated mark is written right
    behind the scalar property, in front of the relationship property if
    there is one; a field that is no reference has nothing else on its
    line. *)
Theorem calculated_annotation (sObjects : option (list string))
    (n ty : string) (refs : list string) (rn : option string) :
  n <> "Id" ->
  exists rel,
    fieldContents sObjects (Field.mk n ty false refs rn)
    = (JS.nl ++ "  " ++ n ++ ": " ++ typeName ty ++ ";") ++ rel
    /\ fieldContents sObjects (Field.mk n ty true refs rn)
       = (JS.nl ++ "  " ++ n ++ ": " ++ typeName ty ++ ";") ++ " //calculated" ++ rel
    /\ (ty <> "reference" -> rel = "").
Proof.
  intros Hn. unfold fieldContents.
  cbn [Field.name Field.type Field.calculated Field.referenceTo Field.relationshipName].
  destruct (String.eqb_spec n "Id") as [E | _]; [contradiction|].
  destruct (String.eqb_spec ty "reference") as [-> | Hty].
  - eexists. split; [reflexivity|]. split; [reflexivity | congruence].
  - exists "". split; [reflexivity|]. split; [reflexivity | reflexivity].
Qed.

Lemma calculated_annotation_witness :
  exists rel,
    fieldContents None (Field.mk "Age__c" "double" false [] None)
    = (JS.nl ++ "  Age__c: number;") ++ rel
    /\ fieldContents None (Field.mk "Age__c" "double" true [] None)
       = (JS.nl ++ "  Age__c: number;") ++ " //calculated" ++ rel
    /\ ("double" <> "reference" -> rel = "").
Proof.
  refine (calculated_annotation None "Age__c" "double" [] None _). discriminate.
Defined.

(** The text of a reference field, whatever its relationship name. *)
Lemma fieldContents_reference (known : list string) (field : Field.t) :
  Field.type field = "reference" ->
  Field.name field <> "Id" ->
  ~ In "" known ->
  fieldContents (Some known) field
  = scalarLine field
    ++ match knownTargets known (Field.referenceTo field) with
       | [] => ""
       | ts => relationshipLine (JS.template (Field.relationshipName field)) ts
       end.
Proof.
  intros Hty Hname Hne. unfold fieldContents, scalarLine.
  destruct (String.eqb_spec (Field.name field) "Id") as [E | _]; [contradiction|].
  rewrite Hty. cbn [String.eqb Ascii.eqb Bool.eqb].
  change (typeName "reference") with "ID".
  rewrite (refTypeName_known _ _ Hne).
  destruct (knownTargets known (Field.referenceTo field)) as [|a ts] eqn:Ek.
  - cbn [JS.truthy_opt]. now rewrite !append_assoc.
  - assert (Ha : a <> "").
    { assert (Hin : In a (knownTargets known (Field.referenceTo field)))
        by (rewrite Ek; now left).
      apply filter_In in Hin. destruct Hin as [_ Hk].
      apply isKnown_In in Hk. congruence. }
    replace (JS.truthy_opt (Some (String.concat " | " (a :: ts)))) with true
      by (symmetry; apply truthy_true_iff; now apply concat_nonempty).
    cbn [JS.template]. unfold relationshipLine. now rewrite !append_assoc.
Qed.

(** X5: a reference field whose relationship name is missing but that has
    a known target still gets a relationship property; the property is
    named [null]. *)
Theorem reference_without_name (known : list string) (field : Field.t) :
  Field.type field = "reference" ->
  Field.name field <> "Id" ->
  Field.relationshipName field = None ->
  ~ In "" known ->
  knownTargets known (Field.referenceTo field) <> [] ->
  fieldContents (Some known) field
  = scalarLine field
    ++ JS.nl ++ "  null: "
    ++ String.concat " | " (knownTargets known (Field.referenceTo field)) ++ ";".
Proof.
  intros Hty Hname Hrn Hne Hk.
  rewrite (fieldContents_reference known field Hty Hname Hne), Hrn.
  destruct (knownTargets known (Field.referenceTo field)); [congruence|].
  reflexivity.
Qed.

Lemma reference_without_name_witness :
  fieldContents (Some ["Account"; "Contact"]) namelessField
  = scalarLine namelessField ++ JS.nl ++ "  null: Contact;".
Proof.
  refine (reference_without_name ["Account"; "Contact"] namelessField _ _ _ _ _).
  - reflexivity.
  - discriminate.
  - reflexivity.
  - simpl. intros H. repeat (destruct H as [H | H]; [discriminate H|]). exact H.
  - discriminate.
Defined.

(** ** Runs of [generate] *)

Section Runs.

Variable describe : string -> option DescribeSObjectResult.
Variable join : string -> string -> string.
Variable readFileAt : string -> ReadResult.
Variable fsReaddir : list (string * string) -> string -> bool.
Variable fsWriteFile : list (string * string) -> string -> string -> bool.

Lemma truthy_opt_Some (o : option string) :
  JS.truthy_opt o = true -> exists s, o = Some s /\ s <> "".
Proof.
  destruct o as [s|]; [|discriminate]. intros H.
  exists s. split; [reflexivity | now apply truthy_true_iff].
Qed.

(** X11: in single-entity mode, on a file system that works, a describe
    call that fails makes [generate] throw once the two fixed files are
    written; no entity file is written and nothing else changes. *)
Theorem single_describe_failure (flags : OutputFlags) (objectName : string)
    (completion : list nat) (st : State) :
  fsSucceeds fsReaddir fsWriteFile ->
  sobject flags = Some objectName ->
  objectName <> "" ->
  JS.truthy_opt (config flags) = false ->
  describe objectName = None ->
  generate describe join readFileAt fsReaddir fsWriteFile flags completion st
  = (Throw, afterPreamble join flags st).
Proof.
  intros Hfs Hs Hn Hc Hd.
  rewrite (generate_eq describe join readFileAt fsReaddir fsWriteFile
             flags completion st Hfs).
  unfold dispatch.
  rewrite Hs, Hc. cbn [JS.truthy_opt].
  replace (JS.truthy objectName) with true by (symmetry; now apply truthy_true_iff).
  cbn [andb]. unfold generateSObject. rewrite Hs.
  unfold bind at 1. unfold generateSObjectTypeContents. now rewrite Hd.
Qed.



(** X18: when the output directory can be listed but the first fixed
    file cannot be written, [generate] throws with no file written, no
    path recorded and nothing printed, whatever the flags. *)
Theorem fixed_file_unwritable (flags : OutputFlags) (completion : list nat)
    (st : State) :
  fsReaddir (files st) (outputdir flags) = true ->
  fsWriteFile (files st) (join (outputdir flags) "sobject.ts") sobject_text = false ->
  generate describe join readFileAt fsReaddir fsWriteFile flags completion st
  = (Throw, st).
Proof.
  intros Hd Hw. unfold generate.
  unfold bind at 1. unfold createBaseSObjectType.
  unfold bind at 1. unfold readdir at 1. rewrite Hd.
  now rewrite (write_fails fsWriteFile _ _ st Hw).
Qed.

End Runs.

Lemma single_describe_failure_witness :
  generate sampleDescribe sampleJoin sampleReadFile sampleReaddir sampleWriteFile
    missingFlags [] (newGenerator [])
  = (Throw, afterPreamble sampleJoin missingFlags (newGenerator [])).
Proof.
  refine (single_describe_failure sampleDescribe sampleJoin sampleReadFile
            sampleReaddir sampleWriteFile
            missingFlags "Missing" [] (newGenerator []) _ _ _ _ _).
  - exact sample_fs_succeeds.
  - reflexivity.
  - discriminate.
  - reflexivity.
  - reflexivity.
Defined.



Lemma fixed_file_unwritable_witness :
  generate sampleDescribe sampleJoin sampleReadFile sampleReaddir fullWriteFile
    singleFlags [] (newGenerator [])
  = (Throw, newGenerator []).
Proof.
  refine (fixed_file_unwritable sampleDescribe sampleJoin sampleReadFile
            sampleReaddir fullWriteFile singleFlags [] (newGenerator []) _ _);
    reflexivity.
Defined.

Section Failures.

Variable describe : string -> option DescribeSObjectResult.
Variable join : string -> string -> string.
Variable readFileAt : string -> ReadResult.
Variable fsReaddir : list (string * string) -> string -> bool.
Variable fsWriteFile : list (string * string) -> string -> string -> bool.

(** The promise of a failing describe call is rejected once the call has
    completed, and stays so. *)
Lemma settled_rejected (cfg : IConfig) (i : nat) (s : string) :
  nth_error (sobjects cfg) i = Some s ->
  describe s = None ->
  forall completion ps st,
    i < length ps ->
    In i completion \/ nth_error ps i = Some JS.Rejected ->
    nth_error (fst (fold_left (settleOne describe cfg) completion (ps, st))) i
    = Some JS.Rejected.
Proof.
  intros Hi Hd. induction completion as [|j completion IH]; intros ps st Hlt H.
  - cbn. destruct H as [[] | H]. exact H.
  - cbn [fold_left].
    pose proof (settleOne_frame describe cfg ps st j) as F. cbn zeta in F.
    assert (Hstep : nth_error (fst (settleOne describe cfg (ps, st) j)) i
                    = Some JS.Rejected
                    \/ (j <> i /\ nth_error (fst (settleOne describe cfg (ps, st) j)) i
                                  = nth_error ps i)).
    { rewrite settleOne_eq. destruct (Nat.eq_dec j i) as [-> | Hji].
      - left. rewrite Hi, Hd. cbn [fst]. now apply settleAt_same.
      - right. split; [exact Hji|].
        destruct (nth_error (sobjects cfg) j) as [s'|]; [|reflexivity].
        destruct (describe s'); cbn [fst]; now apply settleAt_other. }
    destruct (settleOne describe cfg (ps, st) j) as [ps1 st1].
    cbn [fst snd] in *. apply IH; [lia|].
    destruct Hstep as [Hr | [Hji Hsame]]; [now right|].
    destruct H as [[-> | H] | H]; [congruence | now left | right; congruence].
Qed.

(** X10: in config mode, on a file system that works, [generate] throws as
    soon as the describe call of one of the entities has failed, whether
    or not the other calls have completed and in whatever order: the two
    fixed files are written, the batch document is not, and standard error
    stays as it was. *)
Theorem batch_describe_failure (flags : OutputFlags) (path : string)
    (cfg : IConfig) (completion : list nat) (i : nat) (s : string) (st : State) :
  fsSucceeds fsReaddir fsWriteFile ->
  JS.truthy_opt (sobject flags) = false ->
  config flags = Some path ->
  path <> "" ->
  readFileAt path = Parsed cfg ->
  nth_error (sobjects cfg) i = Some s ->
  describe s = None ->
  In i completion ->
  exists st',
    generate describe join readFileAt fsReaddir fsWriteFile flags completion st
    = (Throw, st')
    /\ files st' = (files st ++ preambleFiles join flags)%list
    /\ createdFiles st' = (createdFiles st ++ map fst (preambleFiles join flags))%list
    /\ stderr st' = stderr st.
Proof.
  intros Hfs Hs Hc Hp Hr Hi Hd Hin.
  rewrite (generate_eq describe join readFileAt fsReaddir fsWriteFile
             flags completion st Hfs).
  unfold dispatch.
  rewrite Hs, Hc. cbn [JS.truthy_opt andb].
  replace (JS.truthy path) with true by (symmetry; now apply truthy_true_iff).
  unfold generateSObjectsConfig, readFile. rewrite Hc, Hr.
  unfold bind at 1. unfold ret at 1.
  unfold bind at 1. rewrite logProcessing_runs.
  unfold bind at 1. unfold uxLog at 1.
  cbn [createdFiles unmappedChildRelationships files stderr log trace].
  unfold bind at 1. unfold settleAll at 1.
  set (st1 := mkState _ _ _ _ _ _).
  set (ps0 := map (fun _ : string => JS.Pending) (sobjects cfg)).
  pose proof (settled_frame describe cfg completion ps0 st1) as F.
  assert (Hlt : i < length (sobjects cfg)) by (apply nth_error_Some; congruence).
  assert (Hrej : nth_error
                   (fst (fold_left (settleOne describe cfg) completion (ps0, st1))) i
                 = Some JS.Rejected).
  { apply (settled_rejected cfg i s Hi Hd).
    - unfold ps0. now rewrite length_map.
    - now left. }
  destruct (fold_left (settleOne describe cfg) completion (ps0, st1)) as [ps r].
  cbn [fst snd] in *. cbn zeta in F.
  destruct F as (F1 & F2 & F3 & F4 & F5).
  unfold bind at 1. unfold awaitAll.
  replace (existsb isRejected ps) with true.
  - unfold throw. exists r. split; [reflexivity|].
    rewrite F1, F2, F3. unfold st1. cbn [createdFiles files stderr].
    destruct (afterPreamble_files join flags st) as [A1 A2].
    repeat split; [exact A1 | exact A2].
  - symmetry. apply existsb_exists. exists JS.Rejected.
    split; [eapply nth_error_In; exact Hrej | reflexivity].
Qed.

End Failures.

Lemma batch_describe_failure_witness :
  exists st',
    generate sampleDescribe sampleJoin brokenReadFile sampleReaddir sampleWriteFile
      configFlags [1] (newGenerator [])
    = (Throw, st')
    /\ files st' = preambleFiles sampleJoin configFlags.
Proof.
  destruct (batch_describe_failure sampleDescribe sampleJoin brokenReadFile
              sampleReaddir sampleWriteFile
              configFlags "config.json" brokenConfig [1] 1 "Missing" (newGenerator []))
    as (st' & Hrun & Hfiles & _).
  - exact sample_fs_succeeds.
  - reflexivity.
  - reflexivity.
  - discriminate.
  - reflexivity.
  - reflexivity.
  - reflexivity.
  - simpl. tauto.
  - exists st'. split; [exact Hrun | exact Hfiles].
Defined.

(** ** What every run keeps *)

Section Invariants.

Variable describe : string -> option DescribeSObjectResult.
Variable join : string -> string -> string.
Variable readFileAt : string -> ReadResult.
Variable fsReaddir : list (string * string) -> string -> bool.
Variable fsWriteFile : list (string * string) -> string -> string -> bool.

(** A write followed by the record of its path either does both or, when
    the write fails, neither. *)
Lemma write_and_push_cases (path content : string) (st : State) :
  (writeFile fsWriteFile path content ;; pushCreated path) st
  = (Ok tt,
     mkState (createdFiles st ++ [path]) (unmappedChildRelationships st)
       (files st ++ [(path, content)]) (stderr st) (log st)
       (trace st ++ [Wrote path]))
  \/ (writeFile fsWriteFile path content ;; pushCreated path) st = (Throw, st).
Proof.
  destruct (fsWriteFile (files st) path content) eqn:E.
  - left. now apply write_and_push.
  - right. now apply write_fails.
Qed.

(** Whatever the mode and however it ends, the chosen mode writes at most
    one file, records exactly the path of that file, and only adds to the
    unmapped set. *)
Lemma dispatch_frame (flags : OutputFlags) (completion : list nat) (st : State)
    (res : Result unit) (st' : State) :
  dispatch describe join readFileAt fsWriteFile flags completion st = (res, st') ->
  (exists rest,
      files st' = (files st ++ rest)%list
      /\ createdFiles st' = (createdFiles st ++ map fst rest)%list
      /\ length rest <= 1)
  /\ (forall x, In x (unmappedChildRelationships st)
                -> In x (unmappedChildRelationships st'))
  /\ (NoDup (unmappedChildRelationships st) -> NoDup (unmappedChildRelationships st')).
Proof.
  assert (Hsame : forall st0 : State,
             files st0 = files st ->
             createdFiles st0 = createdFiles st ->
             unmappedChildRelationships st0 = unmappedChildRelationships st ->
             (exists rest,
                 files st0 = (files st ++ rest)%list
                 /\ createdFiles st0 = (createdFiles st ++ map fst rest)%list
                 /\ length rest <= 1)
             /\ (forall x, In x (unmappedChildRelationships st)
                           -> In x (unmappedChildRelationships st0))
             /\ (NoDup (unmappedChildRelationships st)
                 -> NoDup (unmappedChildRelationships st0))).
  { intros st0 H1 H2 H3. split; [|rewrite H3; tauto].
    exists []. cbn [map length]. rewrite !app_nil_r. auto. }
  unfold dispatch.
  destruct (JS.truthy_opt (sobject flags)) eqn:Es;
    destruct (JS.truthy_opt (config flags)) eqn:Ec; cbn [andb]; intros E;
    try (apply pair_equal_spec in E; destruct E as [_ <-];
         apply Hsame; reflexivity).
  - (* single-entity mode *)
    apply truthy_opt_Some in Es. destruct Es as (name & Hs & _).
    unfold generateSObject in E. rewrite Hs in E. unfold bind at 1 in E.
    unfold generateSObjectTypeContents in E.
    destruct (describe name) as [d|].
    + cbn zeta in E.
      match type of E with
      | (writeFile _ ?p ?c ;; _) ?s = _ =>
          destruct (write_and_push_cases p c s) as [W | W]
      end; rewrite W in E; apply pair_equal_spec in E; destruct E as [_ <-];
        unfold setUnmapped;
        cbn [createdFiles unmappedChildRelationships files];
        (split; [|split;
                  [intros x Hx; apply typeContentsOf_unmapped_In; now left
                  |apply typeContentsOf_unmapped_NoDup]]).
      * eexists [_]. cbn [map fst length]. auto.
      * exists []. cbn [map length]. rewrite !app_nil_r. auto.
    + apply pair_equal_spec in E. destruct E as [_ <-]. apply Hsame; reflexivity.
  - (* config mode *)
    apply truthy_opt_Some in Ec. destruct Ec as (path & Hc & _).
    unfold generateSObjectsConfig, readFile in E. rewrite Hc in E.
    destruct (readFileAt path) as [cfg | stack | ].
    + unfold bind at 1 in E. unfold ret at 1 in E.
      unfold bind at 1 in E. rewrite logProcessing_runs in E.
      unfold bind at 1 in E. unfold uxLog at 1 in E.
      cbn [createdFiles unmappedChildRelationships files stderr log trace] in E.
      unfold bind at 1 in E. unfold settleAll at 1 in E.
      set (st1 := mkState _ _ _ _ _ _) in E.
      set (ps0 := map (fun _ : string => JS.Pending) (sobjects cfg)) in E.
      pose proof (settled_frame describe cfg completion ps0 st1) as F.
      pose proof (fun x => settled_unmapped describe cfg x completion ps0 st1) as U.
      pose proof (settled_NoDup describe cfg completion ps0 st1) as N.
      destruct (fold_left (settleOne describe cfg) completion (ps0, st1)) as [ps r].
      cbn [fst snd] in *. cbn zeta in F.
      destruct F as (F1 & F2 & F3 & F4 & F5).
      assert (Hgrow : forall x, In x (unmappedChildRelationships st)
                                -> In x (unmappedChildRelationships r))
        by (intros x Hx; apply U; now left).
      unfold bind at 1 in E. unfold awaitAll in E.
      destruct (existsb isRejected ps);
        [|destruct (existsb isPending ps)].
      * unfold throw in E. apply pair_equal_spec in E. destruct E as [_ <-].
        split; [|split; [exact Hgrow | exact N]].
        exists []. cbn [map length]. rewrite !app_nil_r. auto.
      * apply pair_equal_spec in E. destruct E as [_ <-].
        split; [|split; [exact Hgrow | exact N]].
        exists []. cbn [map length]. rewrite !app_nil_r. auto.
      * unfold ret in E.
        match type of E with
        | (writeFile _ ?p ?c ;; _) ?s = _ =>
            destruct (write_and_push_cases p c s) as [W | W]
        end; rewrite W in E; apply pair_equal_spec in E; destruct E as [_ <-];
          cbn [createdFiles unmappedChildRelationships files];
          (split; [|split; [exact Hgrow | exact N]]).
        -- eexists [_]. cbn [map fst length]. rewrite F1, F2. auto.
        -- exists []. cbn [map length]. rewrite !app_nil_r. auto.
    + cbv [bind stderrWrite throw] in E.
      cbn [createdFiles unmappedChildRelationships files stderr log] in E.
      apply pair_equal_spec in E. destruct E as [_ <-].
      apply Hsame; reflexivity.
    + cbv [bind throw] in E. apply pair_equal_spec in E. destruct E as [_ <-].
      apply Hsame; reflexivity.
Qed.

(** How the two fixed files can go: the first call to the file system that
    fails makes [generate] throw with what was written before it;
    otherwise the mode is chosen with both files written. *)
Lemma generate_cases (flags : OutputFlags) (completion : list nat) (st : State) :
  let first := (join (outputdir flags) "sobject.ts", sobject_text) in
  let st1 := mkState (createdFiles st ++ [fst first]) (unmappedChildRelationships st)
               (files st ++ [first]) (stderr st) (log st)
               (trace st ++ [Wrote (fst first)]) in
  let run := generate describe join readFileAt fsReaddir fsWriteFile flags completion st in
  run = (Throw, st)
  \/ run = (Throw, st1)
  \/ run = match dispatch describe join readFileAt fsWriteFile flags completion
                   (afterPreamble join flags st) with
           | (Ok _, st') => (Ok (createdFiles st'), st')
           | (Throw, st') => (Throw, st')
           | (Blocked, st') => (Blocked, st')
           end.
Proof.
  cbn zeta. cbn [fst].
  destruct (fsReaddir (files st) (outputdir flags)) eqn:R1;
    [destruct (fsWriteFile (files st) (join (outputdir flags) "sobject.ts")
                 sobject_text) eqn:W1;
     [destruct (fsReaddir
                  (files st ++ [(join (outputdir flags) "sobject.ts", sobject_text)])
                  (outputdir flags)) eqn:R2;
      [destruct (fsWriteFile
                   (files st ++ [(join (outputdir flags) "sobject.ts", sobject_text)])
                   (join (outputdir flags) "sobjectFieldTypes.ts") sobjectFieldTypes)
         eqn:W2;
       [right; right | right; left]
      | right; left]
     | left]
    | left];
    unfold generate, createBaseSObjectType, createSalesforceFieldTypes,
      dispatch, afterPreamble;
    cbv [bind readdir writeFile pushCreated];
    repeat first
      [ rewrite R1 | rewrite W1 | rewrite R2 | rewrite W2
      | progress cbn [createdFiles unmappedChildRelationships files stderr log trace] ];
    reflexivity.
Qed.

Lemma snd_outcome (flags : OutputFlags) (completion : list nat) (st : State) :
  snd (match dispatch describe join readFileAt fsWriteFile flags completion st with
       | (Ok _, st') => (Ok (createdFiles st'), st')
       | (Throw, st') => (Throw, st')
       | (Blocked, st') => (@Blocked (list string), st')
       end)
  = snd (dispatch describe join readFileAt fsWriteFile flags completion st).
Proof.
  destruct (dispatch describe join readFileAt fsWriteFile flags completion st)
    as [[u | | ] st']; reflexivity.
Qed.

(** X12: however a run of [generate] ends (it returns, throws, or waits
    for ever), the paths it has added to [createdFiles] are exactly the
    paths of the files it has written, in the order of writing, and the
    files written are the beginning of the list made of the two fixed
    files and at most one more; when every call to the file system
    succeeds, the two fixed files are both written. *)
Theorem created_files_match_written (flags : OutputFlags) (completion : list nat)
    (st : State) :
  let st' := snd (generate describe join readFileAt fsReaddir fsWriteFile flags
                    completion st) in
  exists new,
    files st' = (files st ++ new)%list
    /\ createdFiles st' = (createdFiles st ++ map fst new)%list
    /\ (exists rest,
          length rest <= 1 /\ startOf new (preambleFiles join flags ++ rest))
    /\ (fsSucceeds fsReaddir fsWriteFile ->
        exists rest,
          length rest <= 1 /\ new = (preambleFiles join flags ++ rest)%list).
Proof.
  cbn zeta.
  assert (Hall : exists new,
             files (snd (generate describe join readFileAt fsReaddir fsWriteFile
                           flags completion st)) = (files st ++ new)%list
             /\ createdFiles (snd (generate describe join readFileAt fsReaddir
                                     fsWriteFile flags completion st))
                = (createdFiles st ++ map fst new)%list
             /\ (exists rest,
                   length rest <= 1
                   /\ startOf new (preambleFiles join flags ++ rest))).
  { destruct (generate_cases flags completion st) as [H | [H | H]];
      cbn zeta in H; rewrite H.
    - exists []. cbn [snd map]. rewrite !app_nil_r.
      repeat split. exists []. split; [cbn; lia|]. eexists. reflexivity.
    - eexists [_]. cbn [snd files createdFiles map fst].
      repeat split. exists []. split; [cbn; lia|].
      unfold preambleFiles. eexists [_]. reflexivity.
    - rewrite snd_outcome.
      destruct (dispatch_frame flags completion (afterPreamble join flags st) _ _
                  (surjective_pairing _)) as [(rest & Hf & Hc & Hl) _].
      destruct (afterPreamble_files join flags st) as [A1 A2].
      exists (preambleFiles join flags ++ rest)%list.
      rewrite Hf, Hc, A1, A2, map_app, <- !app_assoc.
      repeat split. exists rest. split; [exact Hl|]. exists []. now rewrite app_nil_r. }
  destruct Hall as (new & Hf & Hc & Hstart).
  exists new. split; [exact Hf|]. split; [exact Hc|]. split; [exact Hstart|].
  intros Hfs.
  rewrite (generate_eq describe join readFileAt fsReaddir fsWriteFile
             flags completion st Hfs), snd_outcome in Hf.
  destruct (dispatch_frame flags completion (afterPreamble join flags st) _ _
              (surjective_pairing _)) as [(rest & Hf' & _ & Hl) _].
  destruct (afterPreamble_files join flags st) as [A1 _].
  exists rest. split; [exact Hl|].
  rewrite Hf', A1, <- app_assoc in Hf. now apply app_inv_head in Hf.
Qed.

(** X13: a run of [generate] never removes a member of the unmapped set,
    however it ends, and adds no member twice. *)
Theorem unmapped_only_grows (flags : OutputFlags) (completion : list nat)
    (st : State) :
  let st' := snd (generate describe join readFileAt fsReaddir fsWriteFile flags
                    completion st) in
  (forall x, In x (unmappedChildRelationships st)
             -> In x (unmappedChildRelationships st'))
  /\ (NoDup (unmappedChildRelationships st) -> NoDup (unmappedChildRelationships st')).
Proof.
  cbn zeta.
  destruct (generate_cases flags completion st) as [H | [H | H]];
    cbn zeta in H; rewrite H.
  - cbn [snd]. tauto.
  - cbn [snd unmappedChildRelationships]. tauto.
  - rewrite snd_outcome.
    destruct (dispatch_frame flags completion (afterPreamble join flags st) _ _
                (surjective_pairing _)) as (_ & Hgrow & Hnd).
    split; [exact Hgrow | exact Hnd].
Qed.

End Invariants.

Lemma unmapped_only_grows_witness :
  In "Case"
    (unmappedChildRelationships
       (snd (generate sampleDescribe sampleJoin sampleReadFile sampleReaddir
               sampleWriteFile singleFlags []
               (mkState [] ["Case"] [] [] [] [])))).
Proof.
  refine (proj1 (unmapped_only_grows sampleDescribe sampleJoin sampleReadFile
                   sampleReaddir sampleWriteFile
                   singleFlags [] (mkState [] ["Case"] [] [] [] [])) "Case" _).
  simpl. tauto.
Defined.

Lemma created_files_match_written_witness :
  exists rest,
    length rest <= 1
    /\ files (snd (generate sampleDescribe sampleJoin sampleReadFile sampleReaddir
                     sampleWriteFile singleFlags [] (newGenerator [])))
       = (preambleFiles sampleJoin singleFlags ++ rest)%list.
Proof.
  destruct (created_files_match_written sampleDescribe sampleJoin sampleReadFile
              sampleReaddir sampleWriteFile singleFlags [] (newGenerator []))
    as (new & Hf & _ & _ & Hok).
  destruct (Hok sample_fs_succeeds) as (rest & Hl & Hnew).
  exists rest. split; [exact Hl|]. rewrite Hf, Hnew. reflexivity.
Defined.

(** ** Runs that succeed *)

Section Success.

Variable describe : string -> option DescribeSObjectResult.
Variable join : string -> string -> string.
Variable readFileAt : string -> ReadResult.
Variable fsReaddir : list (string * string) -> string -> bool.
Variable fsWriteFile : list (string * string) -> string -> string -> bool.

Lemma generate_single_runs (flags : OutputFlags) (objectName : string)
    (d : DescribeSObjectResult) (completion : list nat) (st : State) :
  fsSucceeds fsReaddir fsWriteFile ->
  sobject flags = Some objectName ->
  objectName <> "" ->
  JS.truthy_opt (config flags) = false ->
  describe objectName = Some d ->
  exists st',
    generate describe join readFileAt fsReaddir fsWriteFile flags completion st
    = (Ok (createdFiles st'), st')
    /\ files st'
       = (files st ++ preambleFiles join flags
          ++ [(join (outputdir flags) (sobjectFileName objectName),
               fst (typeContentsOf objectName d None None
                      (unmappedChildRelationships st)))])%list
    /\ stderr st' = stderr st.
Proof.
  intros Hfs Hs Hn Hc Hd.
  rewrite (generate_eq describe join readFileAt fsReaddir fsWriteFile
             flags completion st Hfs).
  unfold dispatch.
  rewrite Hs, Hc. cbn [JS.truthy_opt].
  replace (JS.truthy objectName) with true by (symmetry; now apply truthy_true_iff).
  cbn [andb].
  rewrite (generateSObject_runs describe join fsWriteFile flags objectName d _
             (proj2 Hfs) Hs Hd).
  cbn zeta. eexists. split; [reflexivity|].
  cbn [files stderr]. destruct (afterPreamble_files join flags st) as [A1 _].
  rewrite A1, <- app_assoc. split; reflexivity.
Qed.

(** X2: generating a single entity twice in a row with the same generator,
    over an unchanged schema and a file system that works, writes the same
    three files with the same contents the second time: what the first
    run left in the unmapped set does not change the block. *)
Theorem single_mode_rerun (flags : OutputFlags) (objectName : string)
    (d : DescribeSObjectResult) (completion : list nat) (st : State) :
  fsSucceeds fsReaddir fsWriteFile ->
  sobject flags = Some objectName ->
  objectName <> "" ->
  JS.truthy_opt (config flags) = false ->
  describe objectName = Some d ->
  exists st1 st2 new,
    generate describe join readFileAt fsReaddir fsWriteFile flags completion st
    = (Ok (createdFiles st1), st1)
    /\ generate describe join readFileAt fsReaddir fsWriteFile flags completion st1
       = (Ok (createdFiles st2), st2)
    /\ files st1 = (files st ++ new)%list
    /\ files st2 = (files st1 ++ new)%list
    /\ length new = 3.
Proof.
  intros Hfs Hs Hn Hc Hd.
  destruct (generate_single_runs flags objectName d completion st Hfs Hs Hn Hc Hd)
    as (st1 & R1 & F1 & _).
  destruct (generate_single_runs flags objectName d completion st1 Hfs Hs Hn Hc Hd)
    as (st2 & R2 & F2 & _).
  exists st1, st2. eexists. split; [exact R1|]. split; [exact R2|].
  split; [exact F1|]. split; [|reflexivity].
  rewrite F2. do 4 f_equal. now rewrite !typeContentsOf_layout.
Qed.

(** X7: after a batch over entity names that are not empty, the stub
    section declares exactly the child entities of the named child
    relationships of the batch's entities that are not themselves in the
    batch; no entity of the batch is declared as a stub. *)
Theorem stubs_characterized (flags : OutputFlags) (path : string) (cfg : IConfig)
    (completion : list nat) (createdFiles0 : list string) :
  fsSucceeds fsReaddir fsWriteFile ->
  JS.truthy_opt (sobject flags) = false ->
  config flags = Some path ->
  path <> "" ->
  readFileAt path = Parsed cfg ->
  Forall (fun s => describe s <> None) (sobjects cfg) ->
  isCompletion cfg completion ->
  ~ In "" (sobjects cfg) ->
  exists st',
    generate describe join readFileAt fsReaddir fsWriteFile flags completion
      (newGenerator createdFiles0)
    = (Ok (createdFiles st'), st')
    /\ (forall x,
          In x (stubNames st')
          <-> exists s d child,
                In s (sobjects cfg) /\ describe s = Some d
                /\ In child (childRelationships d)
                /\ ChildRelationship.childSObject child = x
                /\ isNamed child = true
                /\ ~ In x (sobjects cfg))
    /\ (forall x, In x (stubNames st') -> ~ In x (sobjects cfg)).
Proof.
  intros Hfs Hs Hc Hp Hr Hall Hperm Hne.
  destruct (generate_batch_runs describe join readFileAt fsReaddir fsWriteFile
              flags path cfg completion
              (newGenerator createdFiles0) Hfs Hs Hc Hp Hr Hall Hperm)
    as (st' & Hrun & _ & _ & _ & _ & Hu).
  assert (Hiff : forall x,
             In x (stubNames st')
             <-> exists s d child,
                   In s (sobjects cfg) /\ describe s = Some d
                   /\ In child (childRelationships d)
                   /\ ChildRelationship.childSObject child = x
                   /\ isNamed child = true
                   /\ ~ In x (sobjects cfg)).
  { intros x. unfold stubNames. split.
    - intros H. apply (Permutation_in _ (sort_perm _)) in H. apply Hu in H.
      destruct H as [[] | (s & d & Hin & Hd & child & Hch & Hx & Hnamed & Hl)].
      exists s, d, child. repeat split; auto.
      rewrite (inList_isKnown _ _ Hne) in Hl. intros Hk.
      apply isKnown_In in Hk. congruence.
    - intros (s & d & child & Hin & Hd & Hch & Hx & Hnamed & Hnot).
      apply (Permutation_in _ (Permutation_sym (sort_perm _))).
      apply Hu. right. exists s, d. split; [exact Hin|]. split; [exact Hd|].
      exists child. repeat split; auto. now apply inList_unknown. }
  exists st'. split; [exact Hrun|]. split; [exact Hiff|].
  intros x Hx. apply Hiff in Hx.
  destruct Hx as (_ & _ & _ & _ & _ & _ & _ & _ & Hnot). exact Hnot.
Qed.

(** X14: a batch over no entity at all writes a document that holds the
    file header and the heading of the stub section, and nothing else. *)
Theorem empty_batch_document (flags : OutputFlags) (path : string) (cfg : IConfig)
    (createdFiles0 : list string) :
  fsSucceeds fsReaddir fsWriteFile ->
  JS.truthy_opt (sobject flags) = false ->
  config flags = Some path ->
  path <> "" ->
  readFileAt path = Parsed cfg ->
  sobjects cfg = [] ->
  exists st',
    generate describe join readFileAt fsReaddir fsWriteFile flags []
      (newGenerator createdFiles0)
    = (Ok (createdFiles st'), st')
    /\ lastFile st'
       = Some (join (outputdir flags) "sobjects.ts",
               generateFileHeader ++ JS.nl ++ "// unmapped types:")
    /\ unmappedChildRelationships st' = [].
Proof.
  intros Hfs Hs Hc Hp Hr Hempty.
  assert (Hall : Forall (fun s => describe s <> None) (sobjects cfg))
    by (rewrite Hempty; constructor).
  assert (Hperm : isCompletion cfg [])
    by (unfold isCompletion; rewrite Hempty; constructor).
  destruct (generate_batch_runs describe join readFileAt fsReaddir fsWriteFile
              flags path cfg []
              (newGenerator createdFiles0) Hfs Hs Hc Hp Hr Hall Hperm)
    as (st' & Hrun & Hf & _ & _ & _ & Hu).
  assert (Hum : unmappedChildRelationships st' = []).
  { destruct (unmappedChildRelationships st') as [|x um]; [reflexivity|].
    exfalso. destruct (proj1 (Hu x) (or_introl eq_refl)) as [[] | (s & _ & Hin & _)].
    rewrite Hempty in Hin. exact Hin. }
  exists st'. split; [exact Hrun|]. split; [|exact Hum].
  rewrite Hum, Hempty in Hf. cbn [newGenerator files app length] in Hf.
  unfold lastFile. rewrite Hf. cbn [map last].
  unfold batchDocument, stubSection.
  cbn [repeat String.concat JS.sort fold_right map].
  now rewrite !append_nil_r.
Qed.

End Success.

Lemma single_mode_rerun_witness :
  exists st1 st2 new,
    generate sampleDescribe sampleJoin sampleReadFile sampleReaddir sampleWriteFile
      singleFlags [] (newGenerator [])
    = (Ok (createdFiles st1), st1)
    /\ generate sampleDescribe sampleJoin sampleReadFile sampleReaddir sampleWriteFile
         singleFlags [] st1
       = (Ok (createdFiles st2), st2)
    /\ files st1 = (files (newGenerator []) ++ new)%list
    /\ files st2 = (files st1 ++ new)%list
    /\ length new = 3.
Proof.
  refine (single_mode_rerun sampleDescribe sampleJoin sampleReadFile sampleReaddir
            sampleWriteFile singleFlags
            "Contact" sampleContact [] (newGenerator []) _ _ _ _ _).
  - exact sample_fs_succeeds.
  - reflexivity.
  - discriminate.
  - reflexivity.
  - reflexivity.
Defined.

Lemma stubs_characterized_witness :
  exists st',
    generate sampleDescribe sampleJoin sampleReadFile sampleReaddir sampleWriteFile
      configFlags [1; 0] (newGenerator [])
    = (Ok (createdFiles st'), st')
    /\ (forall x, In x (stubNames st') -> ~ In x (sobjects sampleConfig)).
Proof.
  destruct (stubs_characterized sampleDescribe sampleJoin sampleReadFile
              sampleReaddir sampleWriteFile configFlags
              "config.json" sampleConfig [1; 0] [])
    as (st' & Hrun & _ & Hdisjoint).
  - exact sample_fs_succeeds.
  - reflexivity.
  - reflexivity.
  - discriminate.
  - reflexivity.
  - repeat constructor; discriminate.
  - apply perm_swap.
  - simpl. intros H. repeat (destruct H as [H | H]; [discriminate H|]). exact H.
  - exists st'. split; [exact Hrun | exact Hdisjoint].
Defined.

Lemma empty_batch_document_witness :
  exists st',
    generate sampleDescribe sampleJoin (fun _ => Parsed (mkConfig [] None))
      sampleReaddir sampleWriteFile configFlags [] (newGenerator [])
    = (Ok (createdFiles st'), st')
    /\ lastFile st'
       = Some ("out/sobjects.ts", generateFileHeader ++ JS.nl ++ "// unmapped types:")
    /\ unmappedChildRelationships st' = [].
Proof.
  refine (empty_batch_document sampleDescribe sampleJoin
            (fun _ => Parsed (mkConfig [] None)) sampleReaddir sampleWriteFile
            configFlags "config.json"
            (mkConfig [] None) [] _ _ _ _ _ _).
  - exact sample_fs_succeeds.
  - reflexivity.
  - reflexivity.
  - discriminate.
  - reflexivity.
  - reflexivity.
Defined.

Lemma batch_completion_independent_witness :
  exists st1 st2,
    generate sampleDescribe sampleJoin sampleReadFile sampleReaddir sampleWriteFile
      configFlags [0; 1] (newGenerator [])
    = (Ok (createdFiles st1), st1)
    /\ generate sampleDescribe sampleJoin sampleReadFile sampleReaddir sampleWriteFile
         configFlags [1; 0] (newGenerator [])
       = (Ok (createdFiles st2), st2)
    /\ files st1 = files st2
    /\ createdFiles st1 = createdFiles st2
    /\ stderr st1 = stderr st2.
Proof.
  refine (batch_completion_independent sampleDescribe sampleJoin sampleReadFile
            sampleReaddir sampleWriteFile
            configFlags "config.json" sampleConfig [0; 1] [1; 0] [] _ _ _ _ _ _ _ _).
  - exact sample_fs_succeeds.
  - reflexivity.
  - reflexivity.
  - discriminate.
  - reflexivity.
  - repeat constructor; discriminate.
  - apply Permutation_refl.
  - apply perm_swap.
Defined.

(** ** The name of the single-entity file *)

Lemma prefix_c_no_underscore (s : string) :
  noUnderscore s = true -> String.prefix "__c" s = false.
Proof.
  destruct s as [|c s]; [reflexivity|]. cbn [noUnderscore String.prefix].
  intros H. apply andb_prop in H. destruct H as [H _].
  apply negb_true_iff, Ascii.eqb_neq in H.
  destruct (ascii_dec "_" c); [congruence | reflexivity].
Qed.

Lemma prefix_c_second (s : string) :
  noUnderscore s = true -> String.prefix "__c" (String "_" s) = false.
Proof.
  intros H. cbn [String.prefix].
  destruct (ascii_dec "_" "_"); [|reflexivity].
  destruct s as [|c s]; [reflexivity|]. cbn [noUnderscore] in H.
  apply andb_prop in H. destruct H as [H _].
  apply negb_true_iff, Ascii.eqb_neq in H. cbn [String.prefix].
  destruct (ascii_dec "_" c); [congruence | reflexivity].
Qed.

Lemma replace_c_absent (s : string) :
  noUnderscore s = true -> JS.replace_first "__c" s = s.
Proof.
  induction s as [|c s IH]; [reflexivity|]. intros H.
  cbn [JS.replace_first]. rewrite (prefix_c_no_underscore _ H).
  cbn [noUnderscore] in H. apply andb_prop in H. destruct H as [_ H].
  now rewrite (IH H).
Qed.

Lemma replace_c_suffix (s : string) :
  noUnderscore s = true -> JS.replace_first "__c" (s ++ "__c") = s.
Proof.
  induction s as [|c s IH]; [reflexivity|]. intros H.
  cbn [append JS.replace_first].
  replace (String.prefix "__c" (String c (s ++ "__c"))) with false.
  - cbn [noUnderscore] in H. apply andb_prop in H. destruct H as [_ H].
    now rewrite (IH H).
  - cbn [noUnderscore] in H. apply andb_prop in H. destruct H as [H _].
    apply negb_true_iff, Ascii.eqb_neq in H. cbn [String.prefix].
    destruct (ascii_dec "_" c); [congruence | reflexivity].
Qed.

Lemma replace_underscore_absent (s : string) :
  noUnderscore s = true -> JS.replace_first "_" s = s.
Proof.
  induction s as [|c s IH]; [reflexivity|]. intros H.
  cbn [noUnderscore] in H. apply andb_prop in H. destruct H as [Hc H].
  apply negb_true_iff, Ascii.eqb_neq in Hc.
  cbn [JS.replace_first String.prefix].
  destruct (ascii_dec "_" c); [congruence|]. now rewrite (IH H).
Qed.

Lemma replace_underscore_first (a b : string) :
  noUnderscore a = true -> JS.replace_first "_" (a ++ String "_" b) = a ++ b.
Proof.
  induction a as [|c a IH]; intros H.
  - cbn [append JS.replace_first String.prefix].
    destruct (ascii_dec "_" "_"); [|congruence]. now destruct b.
  - cbn [noUnderscore] in H. apply andb_prop in H. destruct H as [Hc H].
    apply negb_true_iff, Ascii.eqb_neq in Hc.
    cbn [append JS.replace_first String.prefix].
    destruct (ascii_dec "_" c); [congruence|]. now rewrite (IH H).
Qed.

(** Behind a stretch without underscores, the search for [__c] goes on as
    if the stretch were not there. *)
Lemma replace_c_skip (a rest : string) :
  noUnderscore a = true ->
  JS.replace_first "__c" (a ++ String "_" rest)
  = a ++ JS.replace_first "__c" (String "_" rest).
Proof.
  induction a as [|c a IH]; intros H; [reflexivity|].
  cbn [noUnderscore] in H. apply andb_prop in H. destruct H as [Hc H].
  apply negb_true_iff, Ascii.eqb_neq in Hc.
  cbn [append]. rewrite <- (IH H).
  cbn [JS.replace_first String.prefix].
  destruct (ascii_dec "_" c); [congruence | reflexivity].
Qed.

(** X15: for an entity name without underscores, with or without the
    suffix [__c], and for a name with one underscore between two stretches
    without, the file of single-entity mode is named after the lowercase
    name with the suffix and the underscore removed. *)
Theorem sobjectFileName_plain (a b : string) :
  noUnderscore a = true ->
  noUnderscore b = true ->
  sobjectFileName a = JS.toLowerCase a ++ ".ts"
  /\ sobjectFileName (a ++ "__c") = JS.toLowerCase a ++ ".ts"
  /\ sobjectFileName (a ++ "_" ++ b) = JS.toLowerCase (a ++ b) ++ ".ts"
  /\ sobjectFileName (a ++ "_" ++ b ++ "__c") = JS.toLowerCase (a ++ b) ++ ".ts".
Proof.
  intros Ha Hb. unfold sobjectFileName. repeat split.
  - now rewrite (replace_c_absent a Ha), (replace_underscore_absent a Ha).
  - now rewrite (replace_c_suffix a Ha), (replace_underscore_absent a Ha).
  - change (a ++ "_" ++ b) with (a ++ String "_" b).
    rewrite (replace_c_skip a b Ha).
    cbn [JS.replace_first]. rewrite (prefix_c_second b Hb), (replace_c_absent b Hb).
    now rewrite (replace_underscore_first a b Ha).
  - change (a ++ "_" ++ b ++ "__c") with (a ++ String "_" (b ++ "__c")).
    rewrite (replace_c_skip a (b ++ "__c") Ha).
    cbn [JS.replace_first].
    replace (String.prefix "__c" (String "_" (b ++ "__c"))) with false.
    + rewrite (replace_c_suffix b Hb).
      now rewrite (replace_underscore_first a b Ha).
    + destruct b as [|c b]; [reflexivity|].
      cbn [noUnderscore] in Hb. apply andb_prop in Hb. destruct Hb as [Hc _].
      apply negb_true_iff, Ascii.eqb_neq in Hc.
      cbn [append String.prefix].
      destruct (ascii_dec "_" "_"); [|reflexivity].
      destruct (ascii_dec "_" c); [congruence | reflexivity].
Qed.

Lemma sobjectFileName_plain_witness :
  sobjectFileName "Account" = "account.ts"
  /\ sobjectFileName ("Invoice" ++ "__c") = "invoice.ts"
  /\ sobjectFileName ("Order" ++ "_" ++ "Line" ++ "__c") = "orderline.ts".
Proof.
  destruct (sobjectFileName_plain "Account" "" eq_refl eq_refl) as (H1 & _).
  destruct (sobjectFileName_plain "Invoice" "" eq_refl eq_refl) as (_ & H2 & _).
  destruct (sobjectFileName_plain "Order" "Line" eq_refl eq_refl) as (_ & _ & _ & H3).
  split; [exact H1|]. split; [exact H2 | exact H3].
Defined.

(** ** The promises of a batch *)

Section Promises.

Variable describe : string -> option DescribeSObjectResult.

Lemma settled_fulfilled (cfg : IConfig) (i : nat) (s : string)
    (d : DescribeSObjectResult) (block : string) :
  nth_error (sobjects cfg) i = Some s ->
  describe s = Some d ->
  (forall um, fst (typeContentsOf s d (Some (sobjects cfg))
                     (specialChildrenToMap cfg) um) = block) ->
  forall completion ps st,
    i < length ps ->
    In i completion \/ nth_error ps i = Some (JS.Fulfilled block) ->
    nth_error (fst (fold_left (settleOne describe cfg) completion (ps, st))) i
    = Some (JS.Fulfilled block).
Proof.
  intros Hi Hd Hblock.
  induction completion as [|j completion IH]; intros ps st Hlt H.
  - cbn. destruct H as [[] | H]. exact H.
  - cbn [fold_left].
    pose proof (settleOne_frame describe cfg ps st j) as F. cbn zeta in F.
    assert (Hstep : nth_error (fst (settleOne describe cfg (ps, st) j)) i
                    = Some (JS.Fulfilled block)
                    \/ (j <> i /\ nth_error (fst (settleOne describe cfg (ps, st) j)) i
                                  = nth_error ps i)).
    { rewrite settleOne_eq. destruct (Nat.eq_dec j i) as [-> | Hji].
      - left. rewrite Hi, Hd. cbn [fst]. cbn zeta.
        rewrite Hblock. now apply settleAt_same.
      - right. split; [exact Hji|].
        destruct (nth_error (sobjects cfg) j) as [s'|]; [|reflexivity].
        destruct (describe s'); cbn [fst]; now apply settleAt_other. }
    destruct (settleOne describe cfg (ps, st) j) as [ps1 st1].
    cbn [fst snd] in *. apply IH; [lia|].
    destruct Hstep as [Hr | [Hji Hsame]]; [now right|].
    destruct H as [[-> | H] | H]; [congruence | now left | right; congruence].
Qed.

(** X16: whatever the order in which the describe calls of a batch
    complete, the promise at each index of the [promises] array is
    fulfilled with the block of the entity at that index of the list of
    names, the block that a call starting from an empty unmapped set
    returns. *)
Theorem promises_hold_blocks (cfg : IConfig) (completion : list nat) (st : State)
    (i : nat) (s : string) (d : DescribeSObjectResult) :
  isCompletion cfg completion ->
  nth_error (sobjects cfg) i = Some s ->
  describe s = Some d ->
  exists promises st',
    settleAll describe cfg completion st = (Ok promises, st')
    /\ length promises = length (sobjects cfg)
    /\ nth_error promises i
       = Some (JS.Fulfilled
                 (fst (typeContentsOf s d (Some (sobjects cfg))
                         (specialChildrenToMap cfg) []))).
Proof.
  intros Hperm Hi Hd. unfold settleAll.
  eexists. eexists. split; [reflexivity|].
  assert (Hlt : i < length (sobjects cfg)) by (apply nth_error_Some; congruence).
  split.
  - destruct (settled_frame describe cfg completion
                (map (fun _ : string => JS.Pending) (sobjects cfg)) st)
      as (_ & _ & _ & _ & Hlen).
    rewrite Hlen. apply length_map.
  - apply (settled_fulfilled cfg i s d _ Hi Hd).
    + intros um. now rewrite !typeContentsOf_layout.
    + now rewrite length_map.
    + left. eapply Permutation_in; [symmetry; exact Hperm|]. apply in_seq. lia.
Qed.

End Promises.

Lemma promises_hold_blocks_witness :
  exists promises st',
    settleAll sampleDescribe sampleConfig [1; 0] (newGenerator []) = (Ok promises, st')
    /\ length promises = 2
    /\ nth_error promises 0
       = Some (JS.Fulfilled
                 (fst (typeContentsOf "Account" sampleAccount
                         (Some ["Account"; "Contact"]) (Some ["Link"; "Contact"]) []))).
Proof.
  refine (promises_hold_blocks sampleDescribe sampleConfig [1; 0] (newGenerator [])
            0 "Account" sampleAccount _ _ _).
  - apply perm_swap.
  - reflexivity.
  - reflexivity.
Defined.
